(** * local-discord: the tag parser, the entity store, its derived views and
    the persistence bridge, embedded from the TypeScript sources
    ([src/utils/tags.ts], [src/store], [src/utils/storage.ts], [src/types]). *)

From Stdlib Require Import Ascii String.
From Stdlib Require Import List ZArith NArith Bool Lia Permutation Sorted.
Import ListNotations.

(* ================================================================== *)
(** * JavaScript strings *)
(* ================================================================== *)

(** A JavaScript string is a sequence of UTF-16 code units.  The regular
    expressions of [tags.ts] carry no [u] flag, so they too see code units. *)
Definition jsstring := list N.

Fixpoint bytes (s : string) : list N :=
  match s with
  | EmptyString => []
  | String c s' => N_of_ascii c :: bytes s'
  end.

(** The literals of the sources are written here as they are there; a Rocq
    string literal holds their UTF-8 bytes, which [codePoints] decodes. *)
Fixpoint codePoints (bs : list N) : list N :=
  match bs with
  | [] => []
  | b0 :: t0 =>
    if (b0 <? 128)%N then b0 :: codePoints t0
    else match t0 with
    | [] => []
    | b1 :: t1 =>
      if (b0 <? 224)%N then ((b0 - 192) * 64 + (b1 - 128))%N :: codePoints t1
      else match t1 with
      | [] => []
      | b2 :: t2 =>
        if (b0 <? 240)%N
        then ((b0 - 224) * 4096 + (b1 - 128) * 64 + (b2 - 128))%N :: codePoints t2
        else match t2 with
        | [] => []
        | b3 :: t3 =>
          ((b0 - 240) * 262144 + (b1 - 128) * 4096 + (b2 - 128) * 64 + (b3 - 128))%N
            :: codePoints t3
        end
      end
    end
  end.

Definition codeUnits (cp : N) : list N :=
  if (cp <? 65536)%N then [cp]
  else [(55296 + (cp - 65536) / 1024)%N; (56320 + (cp - 65536) mod 1024)%N].

Definition utf16 (s : string) : jsstring := flat_map codeUnits (codePoints (bytes s)).

Definition jsstring_eqb (a b : jsstring) : bool :=
  if list_eq_dec N.eq_dec a b then true else false.

(** [s.slice(from, to)] and [s.slice(from)] for indices within the string. *)
Definition slice (s : jsstring) (from to : nat) : jsstring := firstn (to - from) (skipn from s).
Definition sliceFrom (s : jsstring) (from : nat) : jsstring := skipn from s.

(** WhiteSpace and LineTerminator of ECMAScript, which [trim] strips. *)
Definition isWhiteSpace (u : N) : bool :=
  ((9 <=? u) && (u <=? 13) || (u =? 32) || (u =? 160) || (u =? 5760)
   || (8192 <=? u) && (u <=? 8202) || (u =? 8232) || (u =? 8233) || (u =? 8239)
   || (u =? 8287) || (u =? 12288) || (u =? 65279))%N.

Fixpoint trimStart (s : jsstring) : jsstring :=
  match s with
  | u :: s' => if isWhiteSpace u then trimStart s' else s
  | [] => []
  end.

Definition trimEnd (s : jsstring) : jsstring := rev (trimStart (rev s)).
Definition trim (s : jsstring) : jsstring := trimEnd (trimStart s).

Fixpoint startsWith (s q : jsstring) {struct q} : bool :=
  match q, s with
  | [], _ => true
  | _ :: _, [] => false
  | v :: q', u :: s' => (u =? v)%N && startsWith s' q'
  end.

(** [s.includes(q)]: [q] occurs in [s] at some position. *)
Fixpoint includes (s q : jsstring) : bool :=
  startsWith s q || match s with
                    | [] => false
                    | _ :: s' => includes s' q
                    end.

(** A value as [JSON.parse] builds it.  Numbers are the integers (time
    stamps and the version are); an object lists its own properties. *)
#[warnings="-register-all"]
Inductive json :=
| JNull
| JBool (b : bool)
| JNumber (n : Z)
| JString (s : jsstring)
| JArray (items : list json)
| JObject (props : list (jsstring * json)).

(** The simple lower-case mapping of Basic Latin. *)
Definition lowerUnit (u : N) : N :=
  if ((65 <=? u) && (u <=? 90))%N then (u + 32)%N else u.

Definition upperUnit (u : N) : N :=
  if ((97 <=? u) && (u <=? 122))%N then (u - 32)%N else u.

Definition isHangulSyllable (u : N) : bool := ((44032 <=? u) && (u <=? 55203))%N.

(** Code units on which [String.prototype.toLowerCase] is known to act unit
    by unit: Basic Latin, white space, and the caseless Hangul syllables. *)
Definition plainUnit (u : N) : bool := ((u <? 128)%N || isWhiteSpace u || isHangulSyllable u).

(** What the sources use of the platform and do not define themselves.
    [toLowerCase] is [String.prototype.toLowerCase]: full Unicode case
    conversion, of which only the behaviour on plain units is assumed.
    [toUpperCase] is its counterpart, of which nothing is assumed.
    [NumberToString] is [Number::toString], which [Array.prototype.join]
    applies to a number; [StringLessThan s n] is [StringToNumber(s) < n],
    [false] when the string is no numeric literal (NaN).  Nothing is
    assumed of the two. *)
Class Builtins : Type := {
  toLowerCase : jsstring -> jsstring;
  toUpperCase : jsstring -> jsstring;
  NumberToString : Z -> jsstring;
  StringLessThan : jsstring -> Z -> bool;
  toLowerCase_plain :
    forall s, forallb plainUnit s = true -> toLowerCase s = map lowerUnit s
}.

(** The decimal digits of an integer, and the integer that an optional
    sign and decimal digits between white space denote (the empty string
    denotes 0). *)
Fixpoint digitsOf (fuel : nat) (n : N) (acc : jsstring) : jsstring :=
  match fuel with
  | O => acc
  | S fuel' =>
    let acc' := (48 + n mod 10)%N :: acc in
    if (n / 10 =? 0)%N then acc' else digitsOf fuel' (n / 10)%N acc'
  end.

Definition decimal (n : Z) : jsstring :=
  match n with
  | Z0 => [48%N]
  | Zpos p => digitsOf (N.size_nat (Npos p)) (Npos p) []
  | Zneg p => 45%N :: digitsOf (N.size_nat (Npos p)) (Npos p) []
  end.

Definition isDigit (u : N) : bool := ((48 <=? u) && (u <=? 57))%N.

Definition digitsValue (ds : jsstring) : Z :=
  fold_left (fun acc u => (acc * 10 + Z.of_N (u - 48))%Z) ds 0%Z.

Definition integerLiteral (s : jsstring) : option Z :=
  match trim s with
  | [] => Some 0%Z
  | 45%N :: d :: ds =>
    if forallb isDigit (d :: ds) then Some (- digitsValue (d :: ds))%Z else None
  | 43%N :: d :: ds =>
    if forallb isDigit (d :: ds) then Some (digitsValue (d :: ds)) else None
  | ds => if forallb isDigit ds then Some (digitsValue ds) else None
  end.

(** The instance every closed example is evaluated with: the case mapping
    of Basic Latin; integers in decimal digits, as those below 10^21 are
    written; of the numeric literals it reads the decimal integers and
    takes the others for NaN. *)
#[export] Instance basicLatin : Builtins.
Proof.
  refine {| toLowerCase := map lowerUnit; toUpperCase := map upperUnit;
            NumberToString := decimal;
            StringLessThan := fun s n => match integerLiteral s with
                                         | Some m => (m <? n)%Z
                                         | None => false
                                         end |}.
  intros s _. reflexivity.
Defined.

(* ================================================================== *)
(** * [Array.prototype] *)
(* ================================================================== *)

Section Arrays.
Variable A : Type.

(** [xs.sort(cmp)]: the specification asks for a stable sort; a stable
    insertion sort is taken as its model. *)
Fixpoint insertSorted (cmp : A -> A -> Z) (x : A) (l : list A) : list A :=
  match l with
  | [] => [x]
  | y :: l' => if (cmp x y <=? 0)%Z then x :: l else y :: insertSorted cmp x l'
  end.

Definition sort (cmp : A -> A -> Z) (l : list A) : list A :=
  fold_right (insertSorted cmp) [] l.

End Arrays.
Arguments insertSorted {A} cmp x l.
Arguments sort {A} cmp l.

(** A [Set<string>] keeps its members in insertion order. *)
Definition Set_add (set : list jsstring) (v : jsstring) : list jsstring :=
  if existsb (jsstring_eqb v) set then set else set ++ [v].

(** * The reference reading of "deduplicated, in first-occurrence order". *)
Fixpoint firstOccurrences (l : list jsstring) : list jsstring :=
  match l with
  | [] => []
  | x :: l' => x :: filter (fun y => negb (jsstring_eqb x y)) (firstOccurrences l')
  end.

(* ================================================================== *)
(** * tags.ts *)
(* ================================================================== *)

(** The character class [[\w가-힣/]]. *)
Definition isWordUnit (u : N) : bool :=
  ((65 <=? u) && (u <=? 90) || (97 <=? u) && (u <=? 122) || (48 <=? u) && (u <=? 57)
   || (u =? 95))%N.

Definition isTagUnit (u : N) : bool := isWordUnit u || isHangulSyllable u || (u =? 47)%N.

Definition isHash (u : N) : bool := (u =? 35)%N.

Fixpoint takeWhile (p : N -> bool) (s : jsstring) : jsstring :=
  match s with
  | u :: s' => if p u then u :: takeWhile p s' else []
  | [] => []
  end.

(** A match of [/#([\w가-힣/]+)/]: [matched] is [match[0]], [capture] is
    [match[1]]. *)
Record RegExpMatch := { index : nat; matched : jsstring; capture : jsstring }.

(** The one mutable property of a regular expression object. *)
Record RegExp := { lastIndex : nat }.

(** [const TAG_REGEX = /#([\w가-힣/]+)/g] as the module creates it. *)
Definition TAG_REGEX : RegExp := {| lastIndex := 0 |}.

(** The pattern tried at position [i], then at [i+1], ...; [suffix] is the
    input from [i] on.  [+] is greedy and nothing follows the group, so a
    match takes the whole run of class characters after the hash. *)
Fixpoint scanFrom (suffix : jsstring) (i : nat) : option RegExpMatch :=
  match suffix with
  | [] => None
  | u :: rest =>
    if isHash u
    then match takeWhile isTagUnit rest with
         | [] => scanFrom rest (S i)
         | run => Some {| index := i; matched := u :: run; capture := run |}
         end
    else scanFrom rest (S i)
  end.

(** RegExpBuiltinExec for a global, non-sticky expression: the search starts
    at [lastIndex]; a failure resets [lastIndex] to 0, a success moves it
    past the match. *)
Definition exec (str : jsstring) (R : RegExp) : option RegExpMatch * RegExp :=
  if length str <? lastIndex R then (None, {| lastIndex := 0 |})
  else match scanFrom (skipn (lastIndex R) str) (lastIndex R) with
       | Some m => (Some m, {| lastIndex := index m + length (matched m) |})
       | None => (None, {| lastIndex := 0 |})
       end.

Definition test (str : jsstring) (R : RegExp) : bool * RegExp :=
  match exec str R with
  | (Some _, R') => (true, R')
  | (None, R') => (false, R')
  end.

(** [exec] called until it answers [null]: the loop of
    [parseContentWithTags] and of the iterator of [matchAll].  [None] when
    the fuel runs out before the loop ends. *)
Fixpoint execLoop (fuel : nat) (str : jsstring) (R : RegExp) : option (list RegExpMatch) :=
  match fuel with
  | O => None
  | S fuel' =>
    match exec str R with
    | (None, _) => Some []
    | (Some m, R') => option_map (cons m) (execLoop fuel' str R')
    end
  end.

Definition execAll (str : jsstring) (R : RegExp) : list RegExpMatch :=
  match execLoop (S (length str)) str R with
  | Some ms => ms
  | None => []
  end.

(** [str.matchAll(R)] works on a clone of [R] that starts at [R]'s
    [lastIndex]; [R] itself is left as it is. *)
Definition matchAll (str : jsstring) (R : RegExp) : list RegExpMatch :=
  execAll str {| lastIndex := lastIndex R |}.

(** The reference reading of "the [#token] occurrences of a text": at every
    position, in order, the longest non-empty run of class characters that
    follows a hash standing there. *)
Fixpoint tokensOf (s : jsstring) : list jsstring :=
  match s with
  | [] => []
  | u :: rest =>
    (if isHash u
     then match takeWhile isTagUnit rest with
          | [] => []
          | run => [run]
          end
     else []) ++ tokensOf rest
  end.

(** [ContentPart]: [{type: 'text', content}] or [{type: 'tag', content, tag}]. *)
Inductive ContentPart :=
| TextPart (content : jsstring)
| TagPart (content : jsstring) (tag : jsstring).

Definition partContent (p : ContentPart) : jsstring :=
  match p with
  | TextPart c => c
  | TagPart c _ => c
  end.

Section TagUtils.
Context `{Builtins}.

(** [parseTags]; [R] is the module's [TAG_REGEX] in its current state. *)
Definition parseTags (R : RegExp) (content : jsstring) : list jsstring :=
  fold_left (fun tags m => Set_add tags (toLowerCase (capture m))) (matchAll content R) [].

(** [hasTags]: [TAG_REGEX.test(content)], which moves [TAG_REGEX]. *)
Definition hasTags (content : jsstring) (R : RegExp) : bool * RegExp := test content R.

(** One turn of the [while] loop of [parseContentWithTags]. *)
Definition pushMatch (content : jsstring) (st : list ContentPart * nat) (m : RegExpMatch)
  : list ContentPart * nat :=
  let (parts, last) := st in
  let parts := if last <? index m
               then parts ++ [TextPart (slice content last (index m))]
               else parts in
  (parts ++ [TagPart (matched m) (toLowerCase (capture m))], index m + length (matched m)).

(** [parseContentWithTags]: a fresh expression, the loop, the remainder. *)
Definition parseContentWithTags (content : jsstring) : list ContentPart :=
  let regex := {| lastIndex := 0 |} in
  let (parts, last) := fold_left (pushMatch content) (execAll content regex) ([], 0) in
  if last <? length content then parts ++ [TextPart (sliceFrom content last)] else parts.

End TagUtils.

(* ================================================================== *)
(** * types *)
(* ================================================================== *)

(** An optional field ([icon?], [tags?], ...) is [None] when the property is
    absent or [undefined]; a [string | null] is [None] when [null]. *)
Module Server.
Record t := { id : jsstring; name : jsstring; icon : option jsstring; createdAt : Z }.
End Server.

Module Channel.
Record t := { id : jsstring; serverId : jsstring; name : jsstring; createdAt : Z }.
End Channel.

Module Message.
Record t := {
  id : jsstring;
  channelId : jsstring;
  content : jsstring;
  createdAt : Z;
  editedAt : option Z;
  tags : option (list jsstring);
  isPinned : option bool;
  isBookmarked : option bool
}.
End Message.

Record StorageData := {
  data_servers : list Server.t;
  data_channels : list Channel.t;
  data_messages : list Message.t;
  version : Z
}.

Record SearchResult := { message : Message.t; channel : Channel.t; server : Server.t }.

(** [x === y] on strings, and on a [string | null] against a string. *)
Definition sameString (a b : jsstring) : bool := jsstring_eqb a b.

Definition sameOrNull (a : option jsstring) (b : jsstring) : bool :=
  match a with
  | Some a' => jsstring_eqb a' b
  | None => false
  end.

(** Truthiness of an optional boolean and of a string. *)
Definition truthy (b : option bool) : bool :=
  match b with
  | Some true => true
  | _ => false
  end.

Definition nonEmpty (s : jsstring) : bool :=
  match s with
  | [] => false
  | _ :: _ => true
  end.

(** [s || d] and [s || null] for a [string | null | undefined]. *)
Definition orString (s : option jsstring) (d : jsstring) : jsstring :=
  match s with
  | Some s' => if nonEmpty s' then s' else d
  | None => d
  end.

Definition orNull (s : option jsstring) : option jsstring :=
  match s with
  | Some s' => if nonEmpty s' then Some s' else None
  | None => None
  end.

(** [ids.includes(x)] on an array of strings. *)
Definition Array_includes (ids : list jsstring) (x : jsstring) : bool :=
  existsb (fun y => jsstring_eqb y x) ids.

(* ================================================================== *)
(** * store *)
(* ================================================================== *)

Record AppStore := {
  servers : list Server.t;
  channels : list Channel.t;
  messages : list Message.t;
  selectedServerId : option jsstring;
  selectedChannelId : option jsstring;
  searchQuery : jsstring;
  isSearchOpen : bool;
  selectedTag : option jsstring;
  isBookmarkPanelOpen : bool
}.

Definition initialStore : AppStore := {|
  servers := []; channels := []; messages := [];
  selectedServerId := None; selectedChannelId := None;
  searchQuery := []; isSearchOpen := false;
  selectedTag := None; isBookmarkPanelOpen := false
|}.

(** The partial updates that [set] merges into the state. *)
Definition setServers (v : list Server.t) (s : AppStore) : AppStore :=
  {| servers := v; channels := channels s; messages := messages s;
     selectedServerId := selectedServerId s; selectedChannelId := selectedChannelId s;
     searchQuery := searchQuery s; isSearchOpen := isSearchOpen s;
     selectedTag := selectedTag s; isBookmarkPanelOpen := isBookmarkPanelOpen s |}.

Definition setChannels (v : list Channel.t) (s : AppStore) : AppStore :=
  {| servers := servers s; channels := v; messages := messages s;
     selectedServerId := selectedServerId s; selectedChannelId := selectedChannelId s;
     searchQuery := searchQuery s; isSearchOpen := isSearchOpen s;
     selectedTag := selectedTag s; isBookmarkPanelOpen := isBookmarkPanelOpen s |}.

Definition setMessages (v : list Message.t) (s : AppStore) : AppStore :=
  {| servers := servers s; channels := channels s; messages := v;
     selectedServerId := selectedServerId s; selectedChannelId := selectedChannelId s;
     searchQuery := searchQuery s; isSearchOpen := isSearchOpen s;
     selectedTag := selectedTag s; isBookmarkPanelOpen := isBookmarkPanelOpen s |}.

Definition setSelectedServerId (v : option jsstring) (s : AppStore) : AppStore :=
  {| servers := servers s; channels := channels s; messages := messages s;
     selectedServerId := v; selectedChannelId := selectedChannelId s;
     searchQuery := searchQuery s; isSearchOpen := isSearchOpen s;
     selectedTag := selectedTag s; isBookmarkPanelOpen := isBookmarkPanelOpen s |}.

Definition setSelectedChannelId (v : option jsstring) (s : AppStore) : AppStore :=
  {| servers := servers s; channels := channels s; messages := messages s;
     selectedServerId := selectedServerId s; selectedChannelId := v;
     searchQuery := searchQuery s; isSearchOpen := isSearchOpen s;
     selectedTag := selectedTag s; isBookmarkPanelOpen := isBookmarkPanelOpen s |}.

Definition setSearchQuery (query : jsstring) (s : AppStore) : AppStore :=
  {| servers := servers s; channels := channels s; messages := messages s;
     selectedServerId := selectedServerId s; selectedChannelId := selectedChannelId s;
     searchQuery := query; isSearchOpen := isSearchOpen s;
     selectedTag := selectedTag s; isBookmarkPanelOpen := isBookmarkPanelOpen s |}.

(** The snapshot an action hands to [saveData]. *)
Definition snapshot (ss : list Server.t) (cs : list Channel.t) (ms : list Message.t)
  : StorageData :=
  {| data_servers := ss; data_channels := cs; data_messages := ms; version := 1 |}.

(** [tags.length > 0 ? tags : undefined]. *)
Definition tagsField (tags : list jsstring) : option (list jsstring) :=
  match tags with
  | [] => None
  | _ :: _ => Some tags
  end.

(** [{ ...m, content, editedAt: Date.now(), tags: ... }]. *)
Definition editMessage (content : jsstring) (now : Z) (tags : list jsstring) (m : Message.t)
  : Message.t :=
  {| Message.id := Message.id m; Message.channelId := Message.channelId m;
     Message.content := content; Message.createdAt := Message.createdAt m;
     Message.editedAt := Some now; Message.tags := tagsField tags;
     Message.isPinned := Message.isPinned m; Message.isBookmarked := Message.isBookmarked m |}.

(** [{ ...m, isPinned: !m.isPinned }] and [{ ...m, isBookmarked: !m.isBookmarked }]. *)
Definition flipPinned (m : Message.t) : Message.t :=
  {| Message.id := Message.id m; Message.channelId := Message.channelId m;
     Message.content := Message.content m; Message.createdAt := Message.createdAt m;
     Message.editedAt := Message.editedAt m; Message.tags := Message.tags m;
     Message.isPinned := Some (negb (truthy (Message.isPinned m)));
     Message.isBookmarked := Message.isBookmarked m |}.

Definition flipBookmarked (m : Message.t) : Message.t :=
  {| Message.id := Message.id m; Message.channelId := Message.channelId m;
     Message.content := Message.content m; Message.createdAt := Message.createdAt m;
     Message.editedAt := Message.editedAt m; Message.tags := Message.tags m;
     Message.isPinned := Message.isPinned m;
     Message.isBookmarked := Some (negb (truthy (Message.isBookmarked m))) |}.

(** The actions.  An action that persists returns the new state together
    with the snapshot it hands to [saveData].  [uuid] stands for the value
    of [uuidv4()] and [now] for that of [Date.now()] in the call. *)
Section Store.
Context `{Builtins}.

Definition addServer (uuid : jsstring) (now : Z) (name : jsstring) (icon : option jsstring)
           (state : AppStore) : AppStore * StorageData :=
  let newServer := {| Server.id := uuid; Server.name := name;
                      Server.icon := Some (orString icon (toUpperCase (firstn 1 name)));
                      Server.createdAt := now |} in
  let updated := servers state ++ [newServer] in
  (setServers updated state, snapshot updated (channels state) (messages state)).

Definition deleteServer (id : jsstring) (state : AppStore) : AppStore * StorageData :=
  let channelIds :=
    map Channel.id (filter (fun c => sameString (Channel.serverId c) id) (channels state)) in
  let updated_servers := filter (fun s => negb (sameString (Server.id s) id)) (servers state) in
  let updated_channels :=
    filter (fun c => negb (sameString (Channel.serverId c) id)) (channels state) in
  let updated_messages :=
    filter (fun m => negb (Array_includes channelIds (Message.channelId m))) (messages state) in
  let updated_selectedServerId :=
    if sameOrNull (selectedServerId state) id then None else selectedServerId state in
  let updated_selectedChannelId :=
    if Array_includes channelIds (orString (selectedChannelId state) [])
    then None else selectedChannelId state in
  ({| servers := updated_servers; channels := updated_channels;
      messages := updated_messages;
      selectedServerId := updated_selectedServerId;
      selectedChannelId := updated_selectedChannelId;
      searchQuery := searchQuery state; isSearchOpen := isSearchOpen state;
      selectedTag := selectedTag state;
      isBookmarkPanelOpen := isBookmarkPanelOpen state |},
   snapshot updated_servers updated_channels updated_messages).

Definition addChannel (uuid : jsstring) (now : Z) (serverId name : jsstring)
           (state : AppStore) : AppStore * StorageData :=
  let newChannel := {| Channel.id := uuid; Channel.serverId := serverId;
                       Channel.name := name; Channel.createdAt := now |} in
  let updated := channels state ++ [newChannel] in
  (setChannels updated state, snapshot (servers state) updated (messages state)).

Definition deleteChannel (id : jsstring) (state : AppStore) : AppStore * StorageData :=
  let updated_channels := filter (fun c => negb (sameString (Channel.id c) id)) (channels state) in
  let updated_messages :=
    filter (fun m => negb (sameString (Message.channelId m) id)) (messages state) in
  let updated_selectedChannelId :=
    if sameOrNull (selectedChannelId state) id then None else selectedChannelId state in
  (setSelectedChannelId updated_selectedChannelId
     (setMessages updated_messages (setChannels updated_channels state)),
   snapshot (servers state) updated_channels updated_messages).

(** [R] is [TAG_REGEX] as the call finds it; [parseTags] does not move it.
    In [updateMessage] the callback of [map] reads [Date.now()] for each
    message it rewrites; [now] is that reading. *)
Definition addMessage (R : RegExp) (uuid : jsstring) (now : Z) (channelId content : jsstring)
           (state : AppStore) : AppStore * StorageData :=
  let tags := parseTags R content in
  let newMessage := {| Message.id := uuid; Message.channelId := channelId;
                       Message.content := content; Message.createdAt := now;
                       Message.editedAt := None; Message.tags := tagsField tags;
                       Message.isPinned := None; Message.isBookmarked := None |} in
  let updated := messages state ++ [newMessage] in
  (setMessages updated state, snapshot (servers state) (channels state) updated).

Definition updateMessage (R : RegExp) (now : Z) (id content : jsstring)
           (state : AppStore) : AppStore * StorageData :=
  let tags := parseTags R content in
  let updated :=
    map (fun m => if sameString (Message.id m) id then editMessage content now tags m else m)
        (messages state) in
  (setMessages updated state, snapshot (servers state) (channels state) updated).

Definition deleteMessage (id : jsstring) (state : AppStore) : AppStore * StorageData :=
  let updated := filter (fun m => negb (sameString (Message.id m) id)) (messages state) in
  (setMessages updated state, snapshot (servers state) (channels state) updated).

Definition selectServer (id : option jsstring) (state : AppStore) : AppStore :=
  match orNull id with
  | Some id' =>
    let firstChannel := find (fun c => sameString (Channel.serverId c) id') (channels state) in
    setSelectedChannelId (orNull (option_map Channel.id firstChannel))
      (setSelectedServerId id state)
  | None => setSelectedChannelId None (setSelectedServerId None state)
  end.

Definition selectChannel (id : option jsstring) (state : AppStore) : AppStore :=
  setSelectedChannelId id state.

Definition getSearchResults (state : AppStore) : list SearchResult :=
  let query := trim (toLowerCase (searchQuery state)) in
  if negb (nonEmpty query) then []
  else
    let results :=
      fold_left
        (fun results message =>
           if includes (toLowerCase (Message.content message)) query
           then match find (fun c => sameString (Channel.id c) (Message.channelId message))
                           (channels state) with
                | Some channel =>
                  match find (fun s => sameString (Server.id s) (Channel.serverId channel))
                             (servers state) with
                  | Some server =>
                    results ++ [{| message := message; channel := channel; server := server |}]
                  | None => results
                  end
                | None => results
                end
           else results)
        (messages state) [] in
    sort (fun a b => (Message.createdAt (message b) - Message.createdAt (message a))%Z) results.

Definition togglePin (id : jsstring) (state : AppStore) : AppStore * StorageData :=
  let updated :=
    map (fun m => if sameString (Message.id m) id then flipPinned m else m) (messages state) in
  (setMessages updated state, snapshot (servers state) (channels state) updated).

Definition toggleBookmark (id : jsstring) (state : AppStore) : AppStore * StorageData :=
  let updated :=
    map (fun m => if sameString (Message.id m) id then flipBookmarked m else m)
        (messages state) in
  (setMessages updated state, snapshot (servers state) (channels state) updated).

Definition getPinnedMessages (state : AppStore) : list Message.t :=
  sort (fun a b => (Message.createdAt a - Message.createdAt b)%Z)
       (filter (fun m => truthy (Message.isPinned m)
                         && match selectedChannelId state with
                            | Some c => sameString (Message.channelId m) c
                            | None => false
                            end)
               (messages state)).

Definition getBookmarkedMessages (state : AppStore) : list Message.t :=
  sort (fun a b => (Message.createdAt b - Message.createdAt a)%Z)
       (filter (fun m => truthy (Message.isBookmarked m)) (messages state)).

(** A sequence of message writes, as the user issues them. *)
Inductive MessageWrite :=
| AddMessage (uuid : jsstring) (now : Z) (channelId content : jsstring)
| UpdateMessage (now : Z) (id content : jsstring).

Definition applyWrite (R : RegExp) (state : AppStore) (w : MessageWrite) : AppStore :=
  match w with
  | AddMessage uuid now channelId content => fst (addMessage R uuid now channelId content state)
  | UpdateMessage now id content => fst (updateMessage R now id content state)
  end.

Definition applyWrites (R : RegExp) (ws : list MessageWrite) (state : AppStore) : AppStore :=
  fold_left (applyWrite R) ws state.

End Store.

(* ================================================================== *)
(** * storage *)
(* ================================================================== *)

Inductive Error :=
| SyntaxError
| TypeError
| ErrorMessage (message : jsstring).

Inductive Completion (A : Type) :=
| Normal (a : A)
| Throw (e : Error).
Arguments Normal {A} a.
Arguments Throw {A} e.

(** A string as [JSON.parse] reads it: the text of a value, or text that is
    not JSON (the empty string is such a text); [JSON.stringify] of a value
    is the text of that value. *)
Inductive Text :=
| Malformed (raw : jsstring)
| Document (value : json).

Definition JSON_parse (t : Text) : Completion json :=
  match t with
  | Malformed _ => Throw SyntaxError
  | Document v => Normal v
  end.

Definition JSON_stringify (v : json) : Text := Document v.

(** [localStorage]: the slot under [STORAGE_KEY], and whether [setItem]
    throws (the quota is exhausted or the storage is unavailable). *)
Record Storage := { item : option Text; full : bool }.

Definition getItem (ls : Storage) : option Text := item ls.

Definition setItem (t : Text) (ls : Storage) : option Storage :=
  if full ls then None else Some {| item := Some t; full := full ls |}.

Definition CURRENT_VERSION : Z := 1.

Fixpoint lookup (k : jsstring) (props : list (jsstring * json)) : option json :=
  match props with
  | [] => None
  | (k', v) :: props' => if jsstring_eqb k' k then Some v else lookup k props'
  end.

Fixpoint assign (k : jsstring) (v : json) (props : list (jsstring * json))
  : list (jsstring * json) :=
  match props with
  | [] => [(k, v)]
  | (k', v') :: props' =>
    if jsstring_eqb k' k then (k', v) :: props' else (k', v') :: assign k v props'
  end.

(** [data.k] for a property name that is no index and not [length]:
    [undefined] ([None]) on whatever is not an object that has it, a
    TypeError on [null]. *)
Definition Get (data : json) (k : jsstring) : Completion (option json) :=
  match data with
  | JNull => Throw TypeError
  | JObject props => Normal (lookup k props)
  | _ => Normal None
  end.

(** [data.k = v] in a module (strict code): a TypeError on a primitive; on
    an array the property is set beside the items and is not part of what
    [JSON.stringify] writes. *)
Definition Put (data : json) (k : jsstring) (v : json) : Completion json :=
  match data with
  | JObject props => Normal (JObject (assign k v props))
  | JArray items => Normal (JArray items)
  | _ => Throw TypeError
  end.

(** [!x] is [negb (ToBoolean x)]. *)
Definition ToBoolean (x : option json) : bool :=
  match x with
  | None => false
  | Some JNull => false
  | Some (JBool b) => b
  | Some (JNumber n) => negb (n =? 0)%Z
  | Some (JString s) => nonEmpty s
  | Some (JArray _) => true
  | Some (JObject _) => true
  end.

Definition isFalsyText (raw : option Text) : bool :=
  match raw with
  | None => true
  | Some (Malformed []) => true
  | Some _ => false
  end.

(** What [JSON.stringify] writes of the typed values of the store.  A
    property that is [undefined] is left out.  The others are written in
    the order in which the object got its keys, which the calls that made
    the object decide ([{ ...m, editedAt, tags }] after [{ ...m, isPinned }]
    or before it) and which the typed value does not record: [written]
    holds of every order of the entries. *)
Definition optional {A : Type} (k : string) (f : A -> json) (x : option A)
  : list (jsstring * json) :=
  match x with
  | Some a => [(utf16 k, f a)]
  | None => []
  end.

Definition Server_entries (s : Server.t) : list (jsstring * json) :=
  [(utf16 "id", JString (Server.id s)); (utf16 "name", JString (Server.name s))]
  ++ optional "icon" JString (Server.icon s)
  ++ [(utf16 "createdAt", JNumber (Server.createdAt s))].

Definition Channel_entries (c : Channel.t) : list (jsstring * json) :=
  [(utf16 "id", JString (Channel.id c)); (utf16 "serverId", JString (Channel.serverId c));
   (utf16 "name", JString (Channel.name c));
   (utf16 "createdAt", JNumber (Channel.createdAt c))].

Definition Message_entries (m : Message.t) : list (jsstring * json) :=
  [(utf16 "id", JString (Message.id m));
   (utf16 "channelId", JString (Message.channelId m));
   (utf16 "content", JString (Message.content m));
   (utf16 "createdAt", JNumber (Message.createdAt m))]
  ++ optional "editedAt" JNumber (Message.editedAt m)
  ++ optional "tags" (fun ts => JArray (map JString ts)) (Message.tags m)
  ++ optional "isPinned" JBool (Message.isPinned m)
  ++ optional "isBookmarked" JBool (Message.isBookmarked m).

Definition written (entries : list (jsstring * json)) (doc : json) : Prop :=
  exists props, doc = JObject props /\ Permutation entries props.

(** The snapshot that the actions of the store hand to [saveData] is the
    literal [{ servers, channels, messages, version }]. *)
Definition StorageData_written (d : StorageData) (doc : json) : Prop :=
  exists ss cs ms,
    doc = JObject [(utf16 "servers", JArray ss); (utf16 "channels", JArray cs);
                   (utf16 "messages", JArray ms); (utf16 "version", JNumber (version d))]
    /\ Forall2 (fun s => written (Server_entries s)) (data_servers d) ss
    /\ Forall2 (fun c => written (Channel_entries c)) (data_channels d) cs
    /\ Forall2 (fun m => written (Message_entries m)) (data_messages d) ms.

Section StorageUtils.
Context `{Builtins}.

(** [String(v)] for a value that [JSON.parse] built.  An array is joined
    ([Array.prototype.toString] calls [join]): its items are written one
    after the other with commas between, [null] as nothing.  On an object
    [OrdinaryToPrimitive] asks for [toString] and [valueOf]: an own
    [toString] entry is no function and is passed over, and
    [Object.prototype.valueOf] (as any own [valueOf] entry) gives no
    primitive, so that a TypeError is thrown; without an own [toString]
    entry [Object.prototype.toString] answers. *)
Fixpoint ToString (v : json) : Completion jsstring :=
  match v with
  | JNull => Normal (utf16 "null")
  | JBool true => Normal (utf16 "true")
  | JBool false => Normal (utf16 "false")
  | JNumber n => Normal (NumberToString n)
  | JString s => Normal s
  | JArray items =>
    (fix join (items : list json) : Completion jsstring :=
       match items with
       | [] => Normal []
       | element :: items' =>
         match (match element with
                | JNull => Normal []
                | _ => ToString element
                end) with
         | Throw e => Throw e
         | Normal next =>
           match items' with
           | [] => Normal next
           | _ :: _ => match join items' with
                       | Throw e => Throw e
                       | Normal rest => Normal (next ++ 44%N :: rest)
                       end
           end
         end
       end) items
  | JObject props =>
    match lookup (utf16 "toString") props with
    | Some _ => Throw TypeError
    | None => Normal (utf16 "[object Object]")
    end
  end.

(** [x < n] for a number [n].  An array or an object is first made a
    primitive, the same string under the hint [number] as under the hint
    [string], which can throw; [[object Object]] is no numeric literal, so
    an object that does not throw compares as NaN. *)
Definition lessThan (x : option json) (n : Z) : Completion bool :=
  match x with
  | None => Normal false
  | Some JNull => Normal (0 <? n)%Z
  | Some (JBool b) => Normal ((if b then 1 else 0) <? n)%Z
  | Some (JNumber m) => Normal (m <? n)%Z
  | Some (JString s) => Normal (StringLessThan s n)
  | Some (JArray items) =>
    match ToString (JArray items) with
    | Throw e => Throw e
    | Normal s => Normal (StringLessThan s n)
    end
  | Some (JObject props) =>
    match ToString (JObject props) with
    | Throw e => Throw e
    | Normal _ => Normal false
    end
  end.

Definition jstr (s : string) : json := JString (utf16 s).

(** [getDefaultData]; [t1], [t2], [t3] are its three readings of
    [Date.now()]. *)
Definition getDefaultData (t1 t2 t3 : Z) : json :=
  JObject [
    (utf16 "servers", JArray [
      JObject [ (utf16 "id", jstr "default-server");
                (utf16 "name", jstr "내 서버");
                (utf16 "icon", jstr "🏠");
                (utf16 "createdAt", JNumber t1) ] ]);
    (utf16 "channels", JArray [
      JObject [ (utf16 "id", jstr "default-channel");
                (utf16 "serverId", jstr "default-server");
                (utf16 "name", jstr "general");
                (utf16 "createdAt", JNumber t2) ] ]);
    (utf16 "messages", JArray [
      JObject [ (utf16 "id", jstr "welcome-message");
                (utf16 "channelId", jstr "default-channel");
                (utf16 "content", jstr "로컬 Discord에 오신 것을 환영합니다! 👋");
                (utf16 "createdAt", JNumber t3) ] ]);
    (utf16 "version", JNumber CURRENT_VERSION) ].

(** [saveData]: an exception of [setItem] is caught and logged. *)
Definition saveData (data : json) (ls : Storage) : Storage :=
  match setItem (JSON_stringify data) ls with
  | Some ls' => ls'
  | None => ls
  end.

(** The body of the [try] of [loadData]: what it returns and the storage
    it leaves, or the exception it throws; nothing is written before a
    throw. *)
Definition loadData_try (t1 t2 t3 : Z) (ls : Storage) : Completion (json * Storage) :=
  let raw := getItem ls in
  match (if isFalsyText raw then None else raw) with
  | None =>
    let defaultData := getDefaultData t1 t2 t3 in
    Normal (defaultData, saveData defaultData ls)
  | Some rawText =>
    match JSON_parse rawText with
    | Throw e => Throw e
    | Normal data =>
      match Get data (utf16 "version") with
      | Throw e => Throw e
      | Normal v =>
        match lessThan v CURRENT_VERSION with
        | Throw e => Throw e
        | Normal true =>
          match Put data (utf16 "version") (JNumber CURRENT_VERSION) with
          | Throw e => Throw e
          | Normal data' => Normal (data', saveData data' ls)
          end
        | Normal false => Normal (data, ls)
        end
      end
    end
  end.

Definition loadData (t1 t2 t3 : Z) (ls : Storage) : json * Storage :=
  match loadData_try t1 t2 t3 ls with
  | Normal r => r
  | Throw _ => (getDefaultData t1 t2 t3, ls)
  end.

Definition resetData (t1 t2 t3 : Z) (ls : Storage) : json * Storage :=
  let defaultData := getDefaultData t1 t2 t3 in
  (defaultData, saveData defaultData ls).

(** What the [FileReader] reports, and how the promise settles. *)
Inductive FileRead :=
| onload (result : Text)
| onerror.

Inductive Settled :=
| Resolved (data : json)
| Rejected (e : Error).

(** The body of the [try] of [reader.onload]. *)
Definition importData_try (result : Text) (ls : Storage) : Completion (json * Storage) :=
  match JSON_parse result with
  | Throw e => Throw e
  | Normal data =>
    match Get data (utf16 "servers") with
    | Throw e => Throw e
    | Normal servers =>
      if negb (ToBoolean servers) then Throw (ErrorMessage (utf16 "잘못된 데이터 형식"))
      else match Get data (utf16 "channels") with
      | Throw e => Throw e
      | Normal channels =>
        if negb (ToBoolean channels) then Throw (ErrorMessage (utf16 "잘못된 데이터 형식"))
        else match Get data (utf16 "messages") with
        | Throw e => Throw e
        | Normal messages =>
          if negb (ToBoolean messages) then Throw (ErrorMessage (utf16 "잘못된 데이터 형식"))
          else Normal (data, saveData data ls)
        end
      end
    end
  end.

Definition importData (file : FileRead) (ls : Storage) : Settled * Storage :=
  match file with
  | onerror => (Rejected (ErrorMessage (utf16 "파일 읽기 실패")), ls)
  | onload result =>
    match importData_try result ls with
    | Normal (data, ls') => (Resolved data, ls')
    | Throw e => (Rejected e, ls)
    end
  end.

End StorageUtils.

(* ================================================================== *)
(** * Predicates of the properties *)
(* ================================================================== *)

(** The [tags] of a message are what its [content] parses to. *)
Definition tagsConsistent `{Builtins} (R : RegExp) (m : Message.t) : Prop :=
  Message.tags m = tagsField (parseTags R (Message.content m)).

(** Two messages that differ at most in [content], [editedAt] and [tags]. *)
Definition sameBesidesContent (m m' : Message.t) : Prop :=
  Message.id m' = Message.id m /\ Message.channelId m' = Message.channelId m
  /\ Message.createdAt m' = Message.createdAt m
  /\ Message.isPinned m' = Message.isPinned m
  /\ Message.isBookmarked m' = Message.isBookmarked m.

(** Two messages that differ at most in [isPinned], or in [isBookmarked]. *)
Definition sameBesidesPin (m m' : Message.t) : Prop :=
  Message.id m' = Message.id m /\ Message.channelId m' = Message.channelId m
  /\ Message.content m' = Message.content m
  /\ Message.createdAt m' = Message.createdAt m
  /\ Message.editedAt m' = Message.editedAt m
  /\ Message.tags m' = Message.tags m
  /\ Message.isBookmarked m' = Message.isBookmarked m.

Definition sameBesidesBookmark (m m' : Message.t) : Prop :=
  Message.id m' = Message.id m /\ Message.channelId m' = Message.channelId m
  /\ Message.content m' = Message.content m
  /\ Message.createdAt m' = Message.createdAt m
  /\ Message.editedAt m' = Message.editedAt m
  /\ Message.tags m' = Message.tags m
  /\ Message.isPinned m' = Message.isPinned m.

(** The state apart from the messages. *)
Definition sameBesidesMessages (s s' : AppStore) : Prop :=
  servers s' = servers s /\ channels s' = channels s
  /\ selectedServerId s' = selectedServerId s
  /\ selectedChannelId s' = selectedChannelId s
  /\ searchQuery s' = searchQuery s /\ isSearchOpen s' = isSearchOpen s
  /\ selectedTag s' = selectedTag s
  /\ isBookmarkPanelOpen s' = isBookmarkPanelOpen s.

(** A channel of the server [id] has the id [x]. *)
Definition channelOf (id : jsstring) (cs : list Channel.t) (x : jsstring) : bool :=
  existsb (fun c => sameString (Channel.serverId c) id && sameString (Channel.id c) x) cs.

(** A store with a channel and a message under a server id that no server
    has, built with the actions of the store itself. *)
Definition orphanStore : AppStore :=
  fst (addMessage TAG_REGEX (utf16 "m1") 2 (utf16 "c1") (utf16 "hello")
         (fst (addChannel (utf16 "c1") 1 (utf16 "s1") (utf16 "general") initialStore))).

(** A store with one server, one channel in it and one message in that. *)
Definition smallStore : AppStore :=
  fst (addMessage TAG_REGEX (utf16 "m1") 3 (utf16 "c1") (utf16 "hello #World")
         (fst (addChannel (utf16 "c1") 2 (utf16 "s1") (utf16 "general")
                 (fst (addServer (utf16 "s1") 1 (utf16 "home") None initialStore))))).

(** What one message contributes to the search results for [query]: the
    message with the first channel of its [channelId] and the first server
    of that channel's [serverId], when its content holds the query and both
    exist. *)
Definition searchHit `{Builtins} (state : AppStore) (query : jsstring) (m : Message.t)
  : option SearchResult :=
  if includes (toLowerCase (Message.content m)) query
  then match find (fun c => sameString (Channel.id c) (Message.channelId m)) (channels state) with
       | Some c =>
         match find (fun s => sameString (Server.id s) (Channel.serverId c)) (servers state) with
         | Some s => Some {| message := m; channel := c; server := s |}
         | None => None
         end
       | None => None
       end
  else None.

Definition optionList {A : Type} (x : option A) : list A :=
  match x with
  | Some a => [a]
  | None => []
  end.

Definition pinnedIn (selected : option jsstring) (m : Message.t) : Prop :=
  Message.isPinned m = Some true /\ selected = Some (Message.channelId m).

(** The three collection fields of a snapshot. *)
Definition collections : list jsstring :=
  [utf16 "servers"; utf16 "channels"; utf16 "messages"].

(** A storage whose slot holds text that is not JSON, and one whose slot
    holds the text of an object without any field. *)
Definition garbledStorage : Storage :=
  {| item := Some (Malformed (utf16 "{")); full := false |}.

Definition fieldlessStorage : Storage :=
  {| item := Some (Document (JObject [])); full := false |}.

(** A storage whose snapshot has the collections, and for its version an
    object with a [toString] entry. *)
Definition uncomparableStorage : Storage :=
  {| item := Some (Document (JObject [
                (utf16 "servers", JArray []); (utf16 "channels", JArray []);
                (utf16 "messages", JArray []);
                (utf16 "version", JObject [(utf16 "toString", JNumber 0)]) ]));
     full := false |}.

(** A storage that holds nothing yet, and the snapshot that [saveData]
    is given when [addServer], [addChannel] and [addMessage] have made
    [smallStore]. *)
Definition emptyStorage : Storage := {| item := None; full := false |}.

Definition smallSnapshot : json :=
  JObject [
    (utf16 "servers", JArray [
      JObject [ (utf16 "id", JString (utf16 "s1"));
                (utf16 "name", JString (utf16 "home"));
                (utf16 "icon", JString (utf16 "H"));
                (utf16 "createdAt", JNumber 1) ] ]);
    (utf16 "channels", JArray [
      JObject [ (utf16 "id", JString (utf16 "c1"));
                (utf16 "serverId", JString (utf16 "s1"));
                (utf16 "name", JString (utf16 "general"));
                (utf16 "createdAt", JNumber 2) ] ]);
    (utf16 "messages", JArray [
      JObject [ (utf16 "id", JString (utf16 "m1"));
                (utf16 "channelId", JString (utf16 "c1"));
                (utf16 "content", JString (utf16 "hello #World"));
                (utf16 "createdAt", JNumber 3);
                (utf16 "tags", JArray [JString (utf16 "world")]) ] ]);
    (utf16 "version", JNumber 1) ].

(** Two writes on [smallStore]: a new message, then an edit of the first. *)
Definition sampleWrites : list MessageWrite :=
  [AddMessage (utf16 "m2") 4 (utf16 "c1") (utf16 "#a #B #a");
   UpdateMessage 5 (utf16 "m1") (utf16 "no tags now")].

(** Three messages of one channel, created at 3, 1 and 2, all pinned and
    bookmarked, the channel selected. *)
Definition threeMessages : AppStore :=
  let add (uuid : jsstring) now st :=
    fst (addMessage TAG_REGEX uuid now (utf16 "c1") uuid st) in
  let mark (uuid : jsstring) st := fst (toggleBookmark uuid (fst (togglePin uuid st))) in
  selectChannel (Some (utf16 "c1"))
    (mark (utf16 "z") (mark (utf16 "y") (mark (utf16 "x")
       (add (utf16 "z") 2%Z (add (utf16 "y") 1%Z (add (utf16 "x") 3%Z initialStore)))))).

(* ================================================================== *)
(** * tags.ts, the rest *)
(* ================================================================== *)

(** [tag.replace(/^#/, '')]: one hash at the very start is dropped. *)
Definition stripHash (tag : jsstring) : jsstring :=
  match tag with
  | u :: rest => if isHash u then rest else tag
  | [] => []
  end.

(** [normalizeTag]: [tag.replace(/^#/, '').toLowerCase().trim()]. *)
Definition normalizeTag `{Builtins} (tag : jsstring) : jsstring :=
  trim (toLowerCase (stripHash tag)).

(** [hasTags(content)] called [n] times in a row: the answers, and where
    [TAG_REGEX] stands afterwards. *)
Fixpoint hasTagsTimes (n : nat) (content : jsstring) (R : RegExp) : list bool * RegExp :=
  match n with
  | O => ([], R)
  | S n' =>
    let (answer, R') := hasTags content R in
    let (answers, R'') := hasTagsTimes n' content R' in
    (answer :: answers, R'')
  end.

(** The tag parts of a segmentation, as pairs of [content] and [tag]. *)
Definition tagParts (parts : list ContentPart) : list (jsstring * jsstring) :=
  flat_map (fun p => match p with
                     | TagPart c t => [(c, t)]
                     | TextPart _ => []
                     end) parts.

(** No text part is empty, and no text part follows a text part;
    [afterText] tells whether the part before the list is a text part. *)
Fixpoint segmented (afterText : bool) (parts : list ContentPart) : bool :=
  match parts with
  | [] => true
  | TextPart c :: rest => nonEmpty c && negb afterText && segmented true rest
  | TagPart _ _ :: rest => segmented false rest
  end.

(** The alphabet of stored tags: the class characters without the capital
    letters. *)
Definition isLowerTagUnit (u : N) : bool :=
  isTagUnit u && negb ((65 <=? u) && (u <=? 90))%N.

(** Whether a list of parts ends in a text part; [afterText] answers for
    the empty list. *)
Fixpoint endsInText (afterText : bool) (parts : list ContentPart) : bool :=
  match parts with
  | [] => afterText
  | TextPart _ :: rest => endsInText true rest
  | TagPart _ _ :: rest => endsInText false rest
  end.

(* ================================================================== *)
(** * store, the rest *)
(* ================================================================== *)

(** [Partial<Server>] and [Partial<Channel>]: a field is [None] when the
    object has no such key.  A key that is there overrides the field in
    [{ ...s, ...updates }]; the optional [icon] may be set to [undefined]. *)
Module ServerUpdates.
Record t := {
  id : option jsstring;
  name : option jsstring;
  icon : option (option jsstring);
  createdAt : option Z
}.
End ServerUpdates.

Module ChannelUpdates.
Record t := {
  id : option jsstring;
  serverId : option jsstring;
  name : option jsstring;
  createdAt : option Z
}.
End ChannelUpdates.

Definition override {A : Type} (update : option A) (old : A) : A :=
  match update with
  | Some new => new
  | None => old
  end.

Definition mergeServer (s : Server.t) (updates : ServerUpdates.t) : Server.t :=
  {| Server.id := override (ServerUpdates.id updates) (Server.id s);
     Server.name := override (ServerUpdates.name updates) (Server.name s);
     Server.icon := override (ServerUpdates.icon updates) (Server.icon s);
     Server.createdAt := override (ServerUpdates.createdAt updates) (Server.createdAt s) |}.

Definition mergeChannel (c : Channel.t) (updates : ChannelUpdates.t) : Channel.t :=
  {| Channel.id := override (ChannelUpdates.id updates) (Channel.id c);
     Channel.serverId := override (ChannelUpdates.serverId updates) (Channel.serverId c);
     Channel.name := override (ChannelUpdates.name updates) (Channel.name c);
     Channel.createdAt := override (ChannelUpdates.createdAt updates) (Channel.createdAt c) |}.

Definition updateServer (id : jsstring) (updates : ServerUpdates.t) (state : AppStore)
  : AppStore * StorageData :=
  let updated :=
    map (fun s => if sameString (Server.id s) id then mergeServer s updates else s)
        (servers state) in
  (setServers updated state, snapshot updated (channels state) (messages state)).

Definition updateChannel (id : jsstring) (updates : ChannelUpdates.t) (state : AppStore)
  : AppStore * StorageData :=
  let updated :=
    map (fun c => if sameString (Channel.id c) id then mergeChannel c updates else c)
        (channels state) in
  (setChannels updated state, snapshot (servers state) updated (messages state)).

Definition selectTag (tag : option jsstring) (s : AppStore) : AppStore :=
  {| servers := servers s; channels := channels s; messages := messages s;
     selectedServerId := selectedServerId s; selectedChannelId := selectedChannelId s;
     searchQuery := searchQuery s; isSearchOpen := isSearchOpen s;
     selectedTag := tag; isBookmarkPanelOpen := isBookmarkPanelOpen s |}.

(** A [Map<string, number>]: its entries in insertion order; [set] on a key
    that is there keeps its place. *)
Fixpoint Map_get (m : list (jsstring * Z)) (k : jsstring) : option Z :=
  match m with
  | [] => None
  | (k', v) :: m' => if jsstring_eqb k' k then Some v else Map_get m' k
  end.

Fixpoint Map_set (m : list (jsstring * Z)) (k : jsstring) (v : Z) : list (jsstring * Z) :=
  match m with
  | [] => [(k, v)]
  | (k', v') :: m' => if jsstring_eqb k' k then (k', v) :: m' else (k', v') :: Map_set m' k v
  end.

(** [x || 0] for a number or [undefined]. *)
Definition orZero (x : option Z) : Z :=
  match x with
  | Some n => if (n =? 0)%Z then 0%Z else n
  | None => 0%Z
  end.

(** [tagCounts.set(tag, (tagCounts.get(tag) || 0) + 1)]. *)
Definition countTag (tagCounts : list (jsstring * Z)) (tag : jsstring) : list (jsstring * Z) :=
  Map_set tagCounts tag (orZero (Map_get tagCounts tag) + 1)%Z.

Module TagStats.
Record t := { tag : jsstring; count : Z }.
End TagStats.

Definition getAllTags (state : AppStore) : list TagStats.t :=
  let tagCounts :=
    fold_left (fun tagCounts message =>
                 match Message.tags message with
                 | Some tags => fold_left countTag tags tagCounts
                 | None => tagCounts
                 end)
              (messages state) [] in
  sort (fun a b => (TagStats.count b - TagStats.count a)%Z)
       (map (fun entry => {| TagStats.tag := fst entry; TagStats.count := snd entry |})
            tagCounts).

(** The selectors beside the store. *)
Definition useCurrentChannels (state : AppStore) : list Channel.t :=
  filter (fun c => match selectedServerId state with
                   | Some s => sameString (Channel.serverId c) s
                   | None => false
                   end)
         (channels state).

Definition useCurrentMessages (state : AppStore) : list Message.t :=
  sort (fun a b => (Message.createdAt a - Message.createdAt b)%Z)
       (filter (fun m =>
                  if negb (match selectedChannelId state with
                           | Some c => sameString (Message.channelId m) c
                           | None => false
                           end)
                  then false
                  else match orNull (selectedTag state) with
                       | Some t =>
                         match Message.tags m with
                         | Some tags => Array_includes tags t
                         | None => false
                         end
                       | None => true
                       end)
               (messages state)).

Definition useMessagesByTag (tag : jsstring) (state : AppStore) : list Message.t :=
  sort (fun a b => (Message.createdAt b - Message.createdAt a)%Z)
       (filter (fun m => match Message.tags m with
                         | Some tags => Array_includes tags tag
                         | None => false
                         end)
               (messages state)).

(** The actions that persist, as a user or a component issues them. *)
Inductive Action :=
| AddServer (uuid : jsstring) (now : Z) (name : jsstring) (icon : option jsstring)
| UpdateServer (id : jsstring) (updates : ServerUpdates.t)
| DeleteServer (id : jsstring)
| AddChannel (uuid : jsstring) (now : Z) (serverId name : jsstring)
| UpdateChannel (id : jsstring) (updates : ChannelUpdates.t)
| DeleteChannel (id : jsstring)
| WriteMessage (w : MessageWrite)
| DeleteMessage (id : jsstring)
| TogglePin (id : jsstring)
| ToggleBookmark (id : jsstring).

Definition perform `{Builtins} (R : RegExp) (a : Action) (state : AppStore)
  : AppStore * StorageData :=
  match a with
  | AddServer uuid now name icon => addServer uuid now name icon state
  | UpdateServer id updates => updateServer id updates state
  | DeleteServer id => deleteServer id state
  | AddChannel uuid now serverId name => addChannel uuid now serverId name state
  | UpdateChannel id updates => updateChannel id updates state
  | DeleteChannel id => deleteChannel id state
  | WriteMessage (AddMessage uuid now channelId content) =>
    addMessage R uuid now channelId content state
  | WriteMessage (UpdateMessage now id content) => updateMessage R now id content state
  | DeleteMessage id => deleteMessage id state
  | TogglePin id => togglePin id state
  | ToggleBookmark id => toggleBookmark id state
  end.

(** An action on the store and the [localStorage] behind it: the state is
    set and the snapshot goes through [saveData], its text one that
    [JSON.stringify] can write of it. *)
Inductive dispatch `{Builtins} (R : RegExp)
  : AppStore * Storage -> Action -> AppStore * Storage -> Prop :=
| dispatch_saveData (state : AppStore) (ls : Storage) (a : Action) (doc : json) :
    StorageData_written (snd (perform R a state)) doc ->
    dispatch R (state, ls) a (fst (perform R a state), saveData doc ls).

Inductive dispatchAll `{Builtins} (R : RegExp)
  : AppStore * Storage -> list Action -> AppStore * Storage -> Prop :=
| dispatchAll_done (world : AppStore * Storage) : dispatchAll R world [] world
| dispatchAll_next (world world' world'' : AppStore * Storage) (a : Action)
                   (actions : list Action) :
    dispatch R world a world' -> dispatchAll R world' actions world'' ->
    dispatchAll R world (a :: actions) world''.

(** The store after a list of actions. *)
Definition performAll `{Builtins} (R : RegExp) (actions : list Action) (state : AppStore)
  : AppStore :=
  fold_left (fun st a => fst (perform R a st)) actions state.

(** The numbers of a document are integers that a Number holds exactly,
    which [JSON.stringify] writes as [JSON.parse] reads them. *)
Fixpoint safeIntegers (v : json) : bool :=
  match v with
  | JNumber n => (Z.abs n <=? 9007199254740991)%Z
  | JArray items => forallb safeIntegers items
  | JObject props => forallb (fun kv => safeIntegers (snd kv)) props
  | _ => true
  end.

(** Every channel names a server of the store, and every message a channel
    of the store. *)
Definition noOrphans (state : AppStore) : Prop :=
  (forall c, In c (channels state) ->
             exists s, In s (servers state) /\ Server.id s = Channel.serverId c)
  /\ (forall m, In m (messages state) ->
                exists c, In c (channels state) /\ Channel.id c = Message.channelId m).

(** What an action needs for the references to stay whole: a new channel
    names a server that is there, a new message a channel that is there,
    and an update leaves ids and references as they are. *)
Definition keepsReferences (state : AppStore) (a : Action) : Prop :=
  match a with
  | AddChannel _ _ serverId _ => exists s, In s (servers state) /\ Server.id s = serverId
  | WriteMessage (AddMessage _ _ channelId _) =>
    exists c, In c (channels state) /\ Channel.id c = channelId
  | UpdateServer _ updates => ServerUpdates.id updates = None
  | UpdateChannel _ updates =>
    ChannelUpdates.id updates = None /\ ChannelUpdates.serverId updates = None
  | _ => True
  end.

(** All the tags the messages of a store carry, in order. *)
Definition allTags (state : AppStore) : list jsstring :=
  flat_map (fun m => match Message.tags m with
                     | Some tags => tags
                     | None => []
                     end) (messages state).

Definition jsstring_eq_dec (a b : jsstring) : {a = b} + {a <> b} :=
  list_eq_dec N.eq_dec a b.

(** The reference reading of the tag statistics: each tag that occurs,
    in the order of its first occurrence, with the number of its
    occurrences. *)
Definition tagEntries (tags : list jsstring) : list TagStats.t :=
  map (fun t => {| TagStats.tag := t;
                   TagStats.count := Z.of_nat (count_occ jsstring_eq_dec tags t) |})
      (firstOccurrences tags).

(** A message is of the selected channel and, when a tag is selected,
    carries it; a message carries a tag. *)
Definition carriesTag (tag : jsstring) (m : Message.t) : bool :=
  match Message.tags m with
  | Some tags => Array_includes tags tag
  | None => false
  end.

Definition shownInChannel (state : AppStore) (m : Message.t) : bool :=
  sameOrNull (selectedChannelId state) (Message.channelId m)
  && match orNull (selectedTag state) with
     | Some t => carriesTag t m
     | None => true
     end.

(** Updates without any key; a store with the query [hello]; a rename. *)
Definition noServerUpdates : ServerUpdates.t :=
  {| ServerUpdates.id := None; ServerUpdates.name := None;
     ServerUpdates.icon := None; ServerUpdates.createdAt := None |}.

Definition noChannelUpdates : ChannelUpdates.t :=
  {| ChannelUpdates.id := None; ChannelUpdates.serverId := None;
     ChannelUpdates.name := None; ChannelUpdates.createdAt := None |}.

Definition searchingStore : AppStore := setSearchQuery (utf16 "Hello") smallStore.

Definition sampleActions : list Action :=
  [AddChannel (utf16 "c2") 7 (utf16 "s1") (utf16 "notes");
   WriteMessage (AddMessage (utf16 "m2") 8 (utf16 "c2") (utf16 "#idea one"));
   TogglePin (utf16 "m2");
   DeleteChannel (utf16 "c1")].

(** The count [getAllTags] reports for a tag, 0 when it does not list it. *)
Definition tagCount (state : AppStore) (t : jsstring) : Z :=
  match find (fun e => sameString (TagStats.tag e) t) (getAllTags state) with
  | Some e => TagStats.count e
  | None => 0%Z
  end.

(* ================================================================== *)
(** * Strings and arrays: basic facts *)
(* ================================================================== *)

Lemma jsstring_eqb_eq (a b : jsstring) : jsstring_eqb a b = true <-> a = b.
Proof.
  unfold jsstring_eqb. destruct (list_eq_dec N.eq_dec a b); split; congruence.
Qed.

Lemma jsstring_eqb_neq (a b : jsstring) : jsstring_eqb a b = false <-> a <> b.
Proof.
  unfold jsstring_eqb. destruct (list_eq_dec N.eq_dec a b); split; congruence.
Qed.

Lemma jsstring_eqb_refl (a : jsstring) : jsstring_eqb a a = true.
Proof. now apply jsstring_eqb_eq. Qed.

Lemma jsstring_eqb_sym (a b : jsstring) : jsstring_eqb a b = jsstring_eqb b a.
Proof.
  destruct (jsstring_eqb b a) eqn:E.
  - apply jsstring_eqb_eq in E. subst. apply jsstring_eqb_refl.
  - apply jsstring_eqb_neq in E. apply jsstring_eqb_neq. congruence.
Qed.

Lemma Array_includes_In (ids : list jsstring) (x : jsstring) :
  Array_includes ids x = true <-> In x ids.
Proof.
  unfold Array_includes. rewrite existsb_exists. split.
  - intros (y & Hy & E). apply jsstring_eqb_eq in E. now subst.
  - intros Hx. exists x. split; [assumption | apply jsstring_eqb_refl].
Qed.

Lemma firstn_slice (s : jsstring) (a b : nat) :
  a <= b -> firstn a s ++ slice s a b = firstn b s.
Proof.
  intros Hab. unfold slice. revert a b Hab.
  induction s as [|u s IH]; intros a b Hab.
  - now rewrite skipn_nil, !firstn_nil.
  - destruct a as [|a].
    + simpl. now rewrite Nat.sub_0_r.
    + destruct b as [|b]; [lia|]. simpl. f_equal. apply IH. lia.
Qed.

Lemma firstn_past (s x post : jsstring) (i : nat) :
  skipn i s = x ++ post -> firstn (i + length x) s = firstn i s ++ x.
Proof.
  revert i. induction s as [|u s IH]; intros i E.
  - rewrite skipn_nil in E. symmetry in E. apply app_eq_nil in E as [-> _].
    now rewrite Nat.add_0_r, !firstn_nil.
  - destruct i as [|i].
    + simpl in E. rewrite E. simpl.
      now rewrite firstn_app, firstn_all, Nat.sub_diag, firstn_O, app_nil_r.
    + simpl. f_equal. now apply IH.
Qed.

(* ================================================================== *)
(** * The regular expression *)
(* ================================================================== *)

Lemma takeWhile_prefix (p : N -> bool) (s : jsstring) :
  exists post, s = takeWhile p s ++ post.
Proof.
  induction s as [|u s [post IH]]; simpl.
  - now exists [].
  - destruct (p u).
    + exists post. simpl. now f_equal.
    + now exists (u :: s).
Qed.

(** A match found from position [i] lies in the scanned text, at or after
    [i], and consists of the hash and a non-empty capture. *)
Lemma scanFrom_split (suffix : jsstring) (i : nat) (m : RegExpMatch) :
  scanFrom suffix i = Some m ->
  exists pre post,
    suffix = pre ++ matched m ++ post /\ index m = i + length pre
    /\ matched m = 35%N :: capture m /\ capture m <> [].
Proof.
  revert i. induction suffix as [|u rest IH]; intros i E; [discriminate|].
  simpl in E.
  assert (Hrec : scanFrom rest (S i) = Some m ->
                 exists pre post, u :: rest = pre ++ matched m ++ post
                   /\ index m = i + length pre
                   /\ matched m = 35%N :: capture m /\ capture m <> []).
  { intros E'. destruct (IH _ E') as (pre & post & -> & Hi & Hm & Hc).
    exists (u :: pre), post. simpl. repeat split; try assumption. lia. }
  destruct (isHash u) eqn:Hu; [|now apply Hrec].
  destruct (takeWhile isTagUnit rest) as [|v run] eqn:Hrun; [now apply Hrec|].
  injection E as <-. simpl.
  destruct (takeWhile_prefix isTagUnit rest) as [post Hpost].
  exists [], post. simpl. rewrite Hrun in Hpost.
  unfold isHash in Hu. apply N.eqb_eq in Hu. subst u.
  split; [now rewrite Hpost|]. split; [lia|]. split; [reflexivity | discriminate].
Qed.

(** What a successful [exec] tells: where the match is, and where the
    expression stands afterwards. *)
Lemma exec_Some (str : jsstring) (R R' : RegExp) (m : RegExpMatch) :
  exec str R = (Some m, R') ->
  lastIndex R <= index m
  /\ lastIndex R' = index m + length (matched m)
  /\ lastIndex R' <= length str
  /\ 2 <= length (matched m)
  /\ exists post, skipn (index m) str = matched m ++ post.
Proof.
  unfold exec. intros E.
  destruct (length str <? lastIndex R) eqn:Hlen; [discriminate|].
  apply Nat.ltb_ge in Hlen.
  destruct (scanFrom (skipn (lastIndex R) str) (lastIndex R)) as [m'|] eqn:Hscan;
    [|discriminate].
  injection E as <- <-. simpl.
  destruct (scanFrom_split _ _ _ Hscan) as (pre & post & Hsuf & Hi & Hm & Hc).
  assert (Hlen2 : length (skipn (lastIndex R) str) = length pre + length (matched m') + length post).
  { rewrite Hsuf, !length_app. lia. }
  rewrite length_skipn in Hlen2.
  repeat split.
  - lia.
  - lia.
  - rewrite Hm. destruct (capture m'); [congruence | simpl; lia].
  - exists post. rewrite Hi, Nat.add_comm, <- skipn_skipn, Hsuf.
    rewrite skipn_app, skipn_all, Nat.sub_diag. reflexivity.
Qed.

Lemma exec_None (str : jsstring) (R R' : RegExp) :
  exec str R = (None, R') -> R' = {| lastIndex := 0 |}.
Proof.
  unfold exec. intros E.
  destruct (length str <? lastIndex R); [congruence|].
  destruct (scanFrom _ _); [discriminate | congruence].
Qed.

(** The loop ends before its fuel does. *)
Lemma execLoop_enough (str : jsstring) (fuel : nat) :
  forall R, length str - lastIndex R < fuel -> exists ms, execLoop fuel str R = Some ms.
Proof.
  induction fuel as [|fuel IH]; intros R Hlt; [lia|].
  simpl. destruct (exec str R) as [[m|] R'] eqn:E.
  - destruct (exec_Some _ _ _ _ E) as (H1 & H2 & H3 & H4 & _).
    destruct (IH R') as [ms Hms]; [lia|].
    exists (m :: ms). now rewrite Hms.
  - now exists [].
Qed.

Lemma execLoop_more (str : jsstring) (fuel : nat) :
  forall R ms, execLoop fuel str R = Some ms -> execLoop (S fuel) str R = Some ms.
Proof.
  induction fuel as [|fuel IH]; intros R ms E; [discriminate|].
  simpl in E. change (execLoop (S (S fuel)) str R)
    with (match exec str R with
          | (None, _) => Some []
          | (Some m, R') => option_map (cons m) (execLoop (S fuel) str R')
          end).
  destruct (exec str R) as [[m|] R']; [|assumption].
  destruct (execLoop fuel str R') as [ms'|] eqn:E'; [|discriminate].
  now rewrite (IH _ _ E').
Qed.

Lemma execLoop_total (str : jsstring) (R : RegExp) :
  execLoop (S (length str)) str R = Some (execAll str R).
Proof.
  unfold execAll.
  destruct (execLoop_enough str (S (length str)) R) as [ms ->]; [lia | reflexivity].
Qed.

(** The equation of the loop. *)
Lemma execAll_unfold (str : jsstring) (R : RegExp) :
  execAll str R = match exec str R with
                  | (None, _) => []
                  | (Some m, R') => m :: execAll str R'
                  end.
Proof.
  unfold execAll at 1. simpl.
  destruct (exec str R) as [[m|] R'] eqn:E; [|reflexivity].
  destruct (exec_Some _ _ _ _ E) as (H1 & H2 & H3 & H4 & _).
  destruct (execLoop_enough str (length str) R') as [ms Hms]; [lia|].
  rewrite Hms. simpl. f_equal.
  apply execLoop_more in Hms. rewrite execLoop_total in Hms. congruence.
Qed.

(** Induction along the loop. *)
Lemma execAll_ind (str : jsstring) (P : RegExp -> list RegExpMatch -> Prop) :
  (forall R R', exec str R = (None, R') -> P R []) ->
  (forall R m R', exec str R = (Some m, R') ->
                  P R' (execAll str R') -> P R (m :: execAll str R')) ->
  forall R, P R (execAll str R).
Proof.
  intros Hnone Hsome.
  assert (Hn : forall n R, length str - lastIndex R < n -> P R (execAll str R)).
  { induction n as [|n IH]; intros R Hlt; [lia|].
    rewrite execAll_unfold. destruct (exec str R) as [[m|] R'] eqn:E.
    - destruct (exec_Some _ _ _ _ E) as (H1 & H2 & H3 & H4 & _).
      apply (Hsome _ _ _ E). apply IH. lia.
    - now apply (Hnone _ _ E). }
  intros R. apply (Hn (S (length str - lastIndex R))). lia.
Qed.

Lemma isTagUnit_not_hash (u : N) : isTagUnit u = true -> isHash u = false.
Proof.
  unfold isHash. destruct (u =? 35)%N eqn:E; [|reflexivity].
  apply N.eqb_eq in E. subst u. discriminate.
Qed.

Lemma takeWhile_all (p : N -> bool) (s : jsstring) : forallb p (takeWhile p s) = true.
Proof.
  induction s as [|u s IH]; simpl; [reflexivity|].
  destruct (p u) eqn:E; simpl; [now rewrite E | reflexivity].
Qed.

(** No token starts inside a run of class characters. *)
Lemma tokensOf_run (run post : jsstring) :
  forallb isTagUnit run = true -> tokensOf (run ++ post) = tokensOf post.
Proof.
  induction run as [|u run IH]; simpl; [reflexivity|].
  intros E. apply andb_true_iff in E as [Hu E].
  now rewrite (isTagUnit_not_hash u Hu), IH.
Qed.

(** The scan finds the first token of the text it is given, and leaves the
    text after it. *)
Lemma scanFrom_tokensOf (suffix : jsstring) :
  forall i,
    match scanFrom suffix i with
    | None => tokensOf suffix = []
    | Some m =>
      exists pre post,
        suffix = pre ++ matched m ++ post /\ index m = i + length pre
        /\ tokensOf suffix = capture m :: tokensOf post
    end.
Proof.
  induction suffix as [|u rest IH]; intros i; [reflexivity|].
  cbn [scanFrom].
  assert (Hrec : tokensOf (u :: rest) = tokensOf rest ->
                 match scanFrom rest (S i) with
                 | None => tokensOf (u :: rest) = []
                 | Some m =>
                   exists pre post,
                     u :: rest = pre ++ matched m ++ post /\ index m = i + length pre
                     /\ tokensOf (u :: rest) = capture m :: tokensOf post
                 end).
  { intros E. specialize (IH (S i)). destruct (scanFrom rest (S i)) as [m|].
    - destruct IH as (pre & post & -> & Hi & Ht).
      exists (u :: pre), post. simpl length. split; [reflexivity|]. split; [lia|].
      now rewrite E.
    - now rewrite E. }
  destruct (isHash u) eqn:Hu; [|apply Hrec; simpl; now rewrite Hu].
  destruct (takeWhile isTagUnit rest) as [|v run] eqn:Hrun;
    [apply Hrec; simpl; now rewrite Hu, Hrun|].
  destruct (takeWhile_prefix isTagUnit rest) as [post Hpost]. rewrite Hrun in Hpost.
  exists [], post. cbn [matched capture index length app].
  split; [now rewrite Hpost|]. split; [lia|].
  simpl. rewrite Hu, Hrun. simpl. f_equal. rewrite Hpost at 1.
  apply tokensOf_run. rewrite <- Hrun. apply takeWhile_all.
Qed.

(** The loop lists the tokens of the text from [lastIndex] on. *)
Lemma execAll_tokensOf (str : jsstring) :
  forall R,
    lastIndex R <= length str ->
    map capture (execAll str R) = tokensOf (skipn (lastIndex R) str).
Proof.
  apply (execAll_ind str
           (fun R ms => lastIndex R <= length str ->
                        map capture ms = tokensOf (skipn (lastIndex R) str))).
  - intros R R' E Hle. unfold exec in E.
    apply Nat.ltb_ge in Hle. rewrite Hle in E.
    pose proof (scanFrom_tokensOf (skipn (lastIndex R) str) (lastIndex R)) as Hscan.
    destruct (scanFrom _ _); [discriminate | now rewrite Hscan].
  - intros R m R' E IH Hle.
    destruct (exec_Some _ _ _ _ E) as (_ & H2 & H3 & _).
    simpl. rewrite (IH H3). unfold exec in E.
    apply Nat.ltb_ge in Hle. rewrite Hle in E.
    pose proof (scanFrom_tokensOf (skipn (lastIndex R) str) (lastIndex R)) as Hscan.
    destruct (scanFrom _ _) as [m'|]; [|discriminate].
    injection E as <- <-. destruct Hscan as (pre & post & Hsuf & Hi & Ht).
    rewrite Ht. f_equal. f_equal. simpl.
    replace (index m' + length (matched m'))
      with (length (pre ++ matched m') + lastIndex R) by (rewrite length_app; lia).
    rewrite <- skipn_skipn, Hsuf, app_assoc, skipn_app, skipn_all, Nat.sub_diag.
    reflexivity.
Qed.

(* ================================================================== *)
(** * The tag parser and the content segmenter *)
(* ================================================================== *)

Lemma concat_parts_snoc (parts : list ContentPart) (p : ContentPart) :
  concat (map partContent (parts ++ [p])) = concat (map partContent parts) ++ partContent p.
Proof.
  rewrite map_app, concat_app. simpl. now rewrite app_nil_r.
Qed.

Lemma firstOccurrences_In (l : list jsstring) (x : jsstring) :
  In x (firstOccurrences l) <-> In x l.
Proof.
  induction l as [|y l IH]; simpl; [tauto|].
  rewrite filter_In, IH, negb_true_iff, jsstring_eqb_neq.
  destruct (list_eq_dec N.eq_dec y x); intuition congruence.
Qed.

Lemma firstOccurrences_NoDup (l : list jsstring) : NoDup (firstOccurrences l).
Proof.
  induction l as [|y l IH]; simpl; constructor.
  - rewrite filter_In, negb_true_iff, jsstring_eqb_neq. tauto.
  - now apply NoDup_filter.
Qed.

Lemma filter_filter_and {A : Type} (f g : A -> bool) (l : list A) :
  filter f (filter g l) = filter (fun x => g x && f x) l.
Proof.
  induction l as [|x l IH]; simpl; [reflexivity|].
  destruct (g x); simpl; [destruct (f x)|]; now rewrite IH.
Qed.

(** Adding the members of [l] to a set in turn appends, in the order of
    their first occurrence, those the set did not hold. *)
Lemma fold_Set_add (l : list jsstring) :
  forall set,
    fold_left Set_add l set
    = set ++ filter (fun y => negb (existsb (jsstring_eqb y) set)) (firstOccurrences l).
Proof.
  induction l as [|x l IH]; intros set; simpl.
  - now rewrite app_nil_r.
  - rewrite IH. unfold Set_add.
    destruct (existsb (jsstring_eqb x) set) eqn:Hx; simpl.
    + f_equal. rewrite filter_filter_and. apply filter_ext. intros y.
      destruct (jsstring_eqb x y) eqn:Hxy; simpl; [|reflexivity].
      apply jsstring_eqb_eq in Hxy. subst y. now rewrite Hx.
    + rewrite <- app_assoc. simpl. do 2 f_equal.
      rewrite filter_filter_and. apply filter_ext. intros y.
      rewrite existsb_app. simpl. rewrite orb_false_r, negb_orb.
      rewrite (jsstring_eqb_sym y x). apply andb_comm.
Qed.

Lemma fold_Set_add_map {A : Type} (f : A -> jsstring) (l : list A) :
  forall set,
    fold_left (fun tags m => Set_add tags (f m)) l set = fold_left Set_add (map f l) set.
Proof.
  induction l as [|x l IH]; intros set; simpl; [reflexivity | apply IH].
Qed.

Section TagsProperties.
Context `{Builtins}.

Lemma parseTags_firstOccurrences (R : RegExp) (content : jsstring) :
  parseTags R content
  = firstOccurrences (map (fun m => toLowerCase (capture m)) (matchAll content R)).
Proof.
  unfold parseTags. rewrite fold_Set_add_map, fold_Set_add. simpl.
  induction (firstOccurrences _) as [|x l IH]; simpl in *; congruence.
Qed.

Lemma parseTags_nil (R : RegExp) (content : jsstring) :
  parseTags R content = [] <-> matchAll content R = [].
Proof.
  rewrite parseTags_firstOccurrences.
  destruct (matchAll content R); simpl; split; congruence.
Qed.

(** The invariant of the loop of [parseContentWithTags]: the parts pushed
    so far spell the content up to [lastIndex]. *)
Lemma pushMatch_loop (content : jsstring) :
  forall R,
    lastIndex R <= length content ->
    forall parts,
      concat (map partContent parts) = firstn (lastIndex R) content ->
      forall parts' last,
        fold_left (pushMatch content) (execAll content R) (parts, lastIndex R)
        = (parts', last) ->
        concat (map partContent parts') = firstn last content /\ last <= length content.
Proof.
  apply (execAll_ind content
           (fun R ms =>
              lastIndex R <= length content ->
              forall parts,
                concat (map partContent parts) = firstn (lastIndex R) content ->
                forall parts' last,
                  fold_left (pushMatch content) ms (parts, lastIndex R) = (parts', last) ->
                  concat (map partContent parts') = firstn last content
                  /\ last <= length content)).
  - intros R R' _ Hle parts Hparts parts' last E. simpl in E.
    injection E as <- <-. now split.
  - intros R m R' E IH Hle parts Hparts parts' last Hfold.
    destruct (exec_Some _ _ _ _ E) as (H1 & H2 & H3 & H4 & post & Hpost).
    simpl in Hfold. rewrite <- H2 in Hfold.
    apply (IH H3) in Hfold; [assumption|].
    rewrite concat_parts_snoc, H2. simpl.
    rewrite (firstn_past _ _ _ _ Hpost). f_equal.
    destruct (lastIndex R <? index m) eqn:Hlt.
    + rewrite concat_parts_snoc, Hparts. simpl. now apply firstn_slice.
    + apply Nat.ltb_ge in Hlt. rewrite Hparts. f_equal. lia.
Qed.

(** C3.  Concatenating, in order, the [content] of every part that
    [parseContentWithTags] returns gives back the content it was given. *)
Theorem parseContentWithTags_roundtrip (content : jsstring) :
  concat (map partContent (parseContentWithTags content)) = content.
Proof.
  unfold parseContentWithTags.
  destruct (fold_left (pushMatch content) (execAll content {| lastIndex := 0 |}) ([], 0))
    as [parts last] eqn:Hfold.
  destruct (pushMatch_loop content {| lastIndex := 0 |} (Nat.le_0_l _) [] eq_refl _ _ Hfold)
    as [Hparts Hlast].
  destruct (last <? length content) eqn:Hlt.
  - rewrite concat_parts_snoc, Hparts. simpl. apply firstn_skipn.
  - apply Nat.ltb_ge in Hlt. rewrite Hparts.
    replace last with (length content) by lia. apply firstn_all.
Qed.

(** With [TAG_REGEX] where the module creates it, the matches are the
    token occurrences of the whole content. *)
Lemma matchAll_tokensOf (content : jsstring) :
  map capture (matchAll content TAG_REGEX) = tokensOf content.
Proof.
  unfold matchAll. now rewrite execAll_tokensOf by apply Nat.le_0_l.
Qed.

Lemma parseTags_tokensOf (content : jsstring) :
  parseTags TAG_REGEX content = firstOccurrences (map toLowerCase (tokensOf content)).
Proof.
  now rewrite parseTags_firstOccurrences, <- matchAll_tokensOf, map_map.
Qed.

(** C2.  [parseTags] returns the lower-cased captures of the matches,
    each once, in the order of their first occurrence; it returns the
    empty array when nothing matches; with [TAG_REGEX] as the module
    creates it the matches are the token occurrences of the content; and
    on ["#a #b #a"] it returns [["a", "b"]]. *)
Theorem parseTags_lowercased_deduplicated (R : RegExp) (content : jsstring) :
  parseTags R content
  = firstOccurrences (map (fun m => toLowerCase (capture m)) (matchAll content R))
  /\ NoDup (parseTags R content)
  /\ (forall t, In t (parseTags R content)
                <-> exists m, In m (matchAll content R) /\ t = toLowerCase (capture m))
  /\ (matchAll content R = [] -> parseTags R content = [])
  /\ parseTags TAG_REGEX content = firstOccurrences (map toLowerCase (tokensOf content))
  /\ (tokensOf content = [] -> parseTags TAG_REGEX content = [])
  /\ parseTags TAG_REGEX (utf16 "#a #b #a") = [utf16 "a"; utf16 "b"].
Proof.
  split; [apply parseTags_firstOccurrences|].
  split; [rewrite parseTags_firstOccurrences; apply firstOccurrences_NoDup|].
  split.
  { intros t. rewrite parseTags_firstOccurrences, firstOccurrences_In, in_map_iff.
    split; intros (m & H1 & H2); exists m; intuition congruence. }
  split; [apply parseTags_nil|].
  split; [apply parseTags_tokensOf|].
  split; [intros E; now rewrite parseTags_tokensOf, E|].
  unfold parseTags.
  change (matchAll (utf16 "#a #b #a") TAG_REGEX)
    with [ {| index := 0; matched := utf16 "#a"; capture := utf16 "a" |};
           {| index := 3; matched := utf16 "#b"; capture := utf16 "b" |};
           {| index := 6; matched := utf16 "#a"; capture := utf16 "a" |} ].
  simpl fold_left. simpl capture.
  rewrite !toLowerCase_plain by reflexivity. reflexivity.
Qed.

End TagsProperties.

(** C10.  [hasTags] does not depend on its argument alone: called twice in
    a row on ["#a"] from the state the module starts in, it answers [true]
    and then [false]; so it does on every content with exactly one tag
    token, and the second call leaves [TAG_REGEX] where it started. *)
Theorem hasTags_consecutive_calls_differ :
  (exists content,
      fst (hasTags content TAG_REGEX) = true
      /\ fst (hasTags content (snd (hasTags content TAG_REGEX))) = false)
  /\ forall content m,
      execAll content TAG_REGEX = [m] ->
      fst (hasTags content TAG_REGEX) = true
      /\ fst (hasTags content (snd (hasTags content TAG_REGEX))) = false
      /\ snd (hasTags content (snd (hasTags content TAG_REGEX))) = TAG_REGEX.
Proof.
  split.
  - exists (utf16 "#a"). split; reflexivity.
  - intros content m Hone. unfold hasTags, test.
    rewrite execAll_unfold in Hone.
    destruct (exec content TAG_REGEX) as [[m1|] R1] eqn:E1; [|discriminate].
    injection Hone as -> Hrest. simpl.
    rewrite execAll_unfold in Hrest.
    destruct (exec content R1) as [[m2|] R2] eqn:E2; [discriminate|].
    simpl. repeat split. now apply exec_None in E2.
Qed.

(* ================================================================== *)
(** * The entity store: message writes *)
(* ================================================================== *)

Lemma sameString_eq (a b : jsstring) : sameString a b = true <-> a = b.
Proof. apply jsstring_eqb_eq. Qed.

Lemma sameString_neq (a b : jsstring) : sameString a b = false <-> a <> b.
Proof. apply jsstring_eqb_neq. Qed.

Lemma tagsField_not_empty (ts : list jsstring) : tagsField ts <> Some [].
Proof. destruct ts; simpl; congruence. Qed.

Lemma tagsField_None (ts : list jsstring) : tagsField ts = None <-> ts = [].
Proof. destruct ts; simpl; split; congruence. Qed.

Lemma map_unchanged {A : Type} (f : A -> A) (l : list A) :
  (forall x, In x l -> f x = x) -> map f l = l.
Proof.
  intros Hf. induction l as [|x l IH]; simpl; [reflexivity|].
  rewrite Hf by now left. f_equal. apply IH. intros y Hy. apply Hf. now right.
Qed.

Lemma Forall2_map_r {A : Type} (P : A -> A -> Prop) (f : A -> A) (l : list A) :
  (forall x, In x l -> P x (f x)) -> Forall2 P l (map f l).
Proof.
  intros Hf. induction l as [|x l IH]; simpl; constructor.
  - apply Hf. now left.
  - apply IH. intros y Hy. apply Hf. now right.
Qed.

Lemma setMessages_same (ms : list Message.t) (s : AppStore) :
  ms = messages s -> setMessages ms s = s.
Proof. intros ->. now destruct s. Qed.

Section MessageWrites.
Context `{Builtins}.

Lemma applyWrite_consistent (R : RegExp) (state : AppStore) (w : MessageWrite) :
  Forall (tagsConsistent R) (messages state) ->
  Forall (tagsConsistent R) (messages (applyWrite R state w)).
Proof.
  intros Hall. destruct w as [uuid now channelId content | now id content]; simpl.
  - apply Forall_app. split; [assumption|].
    constructor; [reflexivity | constructor].
  - apply Forall_map. revert Hall. apply Forall_impl. intros m Hm.
    destruct (sameString (Message.id m) id); [reflexivity | assumption].
Qed.

Lemma applyWrites_consistent (R : RegExp) (ws : list MessageWrite) :
  forall state,
    Forall (tagsConsistent R) (messages state) ->
    Forall (tagsConsistent R) (messages (applyWrites R ws state)).
Proof.
  unfold applyWrites. induction ws as [|w ws IH]; intros state Hall; simpl.
  - assumption.
  - apply IH. now apply applyWrite_consistent.
Qed.

Lemma tagsConsistent_field (R : RegExp) (m : Message.t) :
  tagsConsistent R m ->
  Message.tags m <> Some []
  /\ (Message.tags m = None <-> matchAll (Message.content m) R = []).
Proof.
  unfold tagsConsistent. intros ->. split.
  - apply tagsField_not_empty.
  - now rewrite tagsField_None, parseTags_nil.
Qed.

(** C1.  After any sequence of [addMessage] and [updateMessage] from the
    store the application starts with, every message carries the tags of
    its content: the lower-cased token occurrences, each once, in
    first-occurrence order, and no [tags] at all (never an empty array)
    when the content has no token.  The same holds from any store whose
    messages carry the tags of their content, wherever [TAG_REGEX] stands,
    for the matches found from there. *)
Theorem tags_follow_content (ws : list MessageWrite) :
  (forall m, In m (messages (applyWrites TAG_REGEX ws initialStore)) ->
     Message.tags m = tagsField (parseTags TAG_REGEX (Message.content m))
     /\ parseTags TAG_REGEX (Message.content m)
        = firstOccurrences (map toLowerCase (tokensOf (Message.content m)))
     /\ Message.tags m <> Some []
     /\ (Message.tags m = None <-> tokensOf (Message.content m) = []))
  /\ (forall R state,
        Forall (tagsConsistent R) (messages state) ->
        forall m, In m (messages (applyWrites R ws state)) ->
          Message.tags m = tagsField (parseTags R (Message.content m))
          /\ Message.tags m <> Some []
          /\ (Message.tags m = None <-> matchAll (Message.content m) R = [])).
Proof.
  split.
  - intros m Hm.
    assert (Hc : tagsConsistent TAG_REGEX m).
    { pose proof (applyWrites_consistent TAG_REGEX ws initialStore (Forall_nil _)) as Hall.
      rewrite Forall_forall in Hall. now apply Hall. }
    destruct (tagsConsistent_field TAG_REGEX m Hc) as [Hne Hnone].
    split; [exact Hc|]. split; [apply parseTags_tokensOf|]. split; [exact Hne|].
    rewrite Hnone, <- matchAll_tokensOf.
    destruct (matchAll (Message.content m) TAG_REGEX); simpl; split; congruence.
  - intros R state Hall m Hm.
    assert (Hc : tagsConsistent R m).
    { pose proof (applyWrites_consistent R ws state Hall) as Hall'.
      rewrite Forall_forall in Hall'. now apply Hall'. }
    split; [exact Hc | now apply tagsConsistent_field].
Qed.

(** C5.  [updateMessage] rewrites, in place, the messages of the given id:
    new content, tags of the new content, [editedAt] set; [createdAt],
    the pin and the bookmark stay, as do all other messages and the rest
    of the state; with no message of that id nothing changes.
    [togglePin] and [toggleBookmark] flip their own flag on the messages
    of the given id and change nothing else; with no message of that id
    they change nothing at all. *)
Theorem message_edits_frame (R : RegExp) (now : Z) (id content : jsstring) (state : AppStore) :
  (Forall2 (fun m m' =>
              if sameString (Message.id m) id
              then Message.content m' = content
                   /\ Message.tags m' = tagsField (parseTags R content)
                   /\ Message.editedAt m' = Some now
                   /\ sameBesidesContent m m'
              else m' = m)
           (messages state) (messages (fst (updateMessage R now id content state)))
   /\ sameBesidesMessages state (fst (updateMessage R now id content state))
   /\ ((forall m, In m (messages state) -> Message.id m <> id) ->
       fst (updateMessage R now id content state) = state))
  /\ (Forall2 (fun m m' =>
                 if sameString (Message.id m) id
                 then truthy (Message.isPinned m') = negb (truthy (Message.isPinned m))
                      /\ sameBesidesPin m m'
                 else m' = m)
              (messages state) (messages (fst (togglePin id state)))
      /\ sameBesidesMessages state (fst (togglePin id state))
      /\ ((forall m, In m (messages state) -> Message.id m <> id) ->
          fst (togglePin id state) = state))
  /\ (Forall2 (fun m m' =>
                 if sameString (Message.id m) id
                 then truthy (Message.isBookmarked m')
                      = negb (truthy (Message.isBookmarked m))
                      /\ sameBesidesBookmark m m'
                 else m' = m)
              (messages state) (messages (fst (toggleBookmark id state)))
      /\ sameBesidesMessages state (fst (toggleBookmark id state))
      /\ ((forall m, In m (messages state) -> Message.id m <> id) ->
          fst (toggleBookmark id state) = state)).
Proof.
  assert (Hnoop : forall f : Message.t -> Message.t,
           (forall m, In m (messages state) -> Message.id m <> id) ->
           setMessages (map (fun m => if sameString (Message.id m) id then f m else m)
                            (messages state)) state = state).
{ intros f Hnone. apply setMessages_same. apply map_unchanged.
  intros m Hm. apply Hnone in Hm. apply sameString_neq in Hm. now rewrite Hm. }
split; [split; [|split] | split; (split; [|split])].
- simpl. apply Forall2_map_r. intros m _.
  destruct (sameString (Message.id m) id); [|reflexivity].
  unfold sameBesidesContent. simpl. tauto.
- unfold sameBesidesMessages. simpl. tauto.
- apply Hnoop.
- simpl. apply Forall2_map_r. intros m _.
  destruct (sameString (Message.id m) id); [|reflexivity].
  unfold sameBesidesPin. simpl. split; [|tauto].
  now destruct (truthy (Message.isPinned m)).
- unfold sameBesidesMessages. simpl. tauto.
- apply Hnoop.
- simpl. apply Forall2_map_r. intros m _.
  destruct (sameString (Message.id m) id); [|reflexivity].
  unfold sameBesidesBookmark. simpl. split; [|tauto].
  now destruct (truthy (Message.isBookmarked m)).
- unfold sameBesidesMessages. simpl. tauto.
- apply Hnoop.
Qed.

End MessageWrites.

(* ================================================================== *)
(** * The entity store: cascade delete *)
(* ================================================================== *)

Lemma channelIds_includes (id : jsstring) (cs : list Channel.t) (x : jsstring) :
  Array_includes
    (map Channel.id (filter (fun c => sameString (Channel.serverId c) id) cs)) x
  = channelOf id cs x.
Proof.
  unfold Array_includes, channelOf. induction cs as [|c cs IH]; simpl; [reflexivity|].
  destruct (sameString (Channel.serverId c) id); simpl; now rewrite IH.
Qed.

Lemma channelOf_spec (id : jsstring) (cs : list Channel.t) (x : jsstring) :
  channelOf id cs x = true
  <-> exists c, In c cs /\ Channel.serverId c = id /\ Channel.id c = x.
Proof.
  unfold channelOf. rewrite existsb_exists. split.
  - intros (c & Hc & E). apply andb_true_iff in E as [E1 E2].
    apply sameString_eq in E1, E2. now exists c.
  - intros (c & Hc & E1 & E2). exists c. split; [assumption|].
    apply andb_true_iff. split; now apply sameString_eq.
Qed.

Lemma filter_unchanged {A : Type} (f : A -> bool) (l : list A) :
  (forall x, In x l -> f x = true) -> filter f l = l.
Proof.
  intros Hf. induction l as [|x l IH]; simpl; [reflexivity|].
  rewrite Hf by now left. f_equal. apply IH. intros y Hy. apply Hf. now right.
Qed.

(** C4 as first stated fails: with no server of the id, the channels that
    name it and their messages are removed all the same. *)
Lemma deleteServer_removes_orphans :
  (forall s, In s (servers orphanStore) -> Server.id s <> utf16 "s1")
  /\ channels orphanStore <> []
  /\ messages orphanStore <> []
  /\ channels (fst (deleteServer (utf16 "s1") orphanStore)) = []
  /\ messages (fst (deleteServer (utf16 "s1") orphanStore)) = [].
Proof.
  split; [intros s []|].
  split; [discriminate|]. split; [discriminate|]. split; reflexivity.
Qed.

(** C4, amended.  [deleteServer id] keeps, in their order, exactly the
    servers of another id, the channels of another server and the messages
    whose channel is no channel of that server; it clears the server
    selection if that was [id] and keeps it otherwise, clears the channel
    selection if that was a channel of the server and keeps it otherwise;
    nothing else of the state changes; and the collections are unchanged
    when no server has the id and no channel names it as its server. *)
Theorem deleteServer_cascade (id : jsstring) (state : AppStore) :
  servers (fst (deleteServer id state))
  = filter (fun s => negb (sameString (Server.id s) id)) (servers state)
  /\ channels (fst (deleteServer id state))
     = filter (fun c => negb (sameString (Channel.serverId c) id)) (channels state)
  /\ messages (fst (deleteServer id state))
     = filter (fun m => negb (channelOf id (channels state) (Message.channelId m)))
              (messages state)
  /\ (forall s, In s (servers (fst (deleteServer id state)))
                <-> In s (servers state) /\ Server.id s <> id)
  /\ (forall c, In c (channels (fst (deleteServer id state)))
                <-> In c (channels state) /\ Channel.serverId c <> id)
  /\ (forall m, In m (messages (fst (deleteServer id state)))
                <-> In m (messages state)
                    /\ ~ exists c, In c (channels state) /\ Channel.serverId c = id
                                   /\ Channel.id c = Message.channelId m)
  /\ (selectedServerId state = Some id ->
      selectedServerId (fst (deleteServer id state)) = None)
  /\ (selectedServerId state <> Some id ->
      selectedServerId (fst (deleteServer id state)) = selectedServerId state)
  /\ (forall x, selectedChannelId state = Some x ->
                (exists c, In c (channels state) /\ Channel.serverId c = id
                           /\ Channel.id c = x) ->
                selectedChannelId (fst (deleteServer id state)) = None)
  /\ ((forall x c, selectedChannelId state = Some x -> In c (channels state) ->
                   Channel.serverId c = id -> Channel.id c <> x) ->
      selectedChannelId (fst (deleteServer id state)) = selectedChannelId state)
  /\ (searchQuery (fst (deleteServer id state)) = searchQuery state
      /\ isSearchOpen (fst (deleteServer id state)) = isSearchOpen state
      /\ selectedTag (fst (deleteServer id state)) = selectedTag state
      /\ isBookmarkPanelOpen (fst (deleteServer id state)) = isBookmarkPanelOpen state)
  /\ ((forall s, In s (servers state) -> Server.id s <> id) ->
      (forall c, In c (channels state) -> Channel.serverId c <> id) ->
      servers (fst (deleteServer id state)) = servers state
      /\ channels (fst (deleteServer id state)) = channels state
      /\ messages (fst (deleteServer id state)) = messages state).
Proof.
  assert (Hmsgs : messages (fst (deleteServer id state))
                  = filter (fun m => negb (channelOf id (channels state) (Message.channelId m)))
                           (messages state)).
  { simpl. apply filter_ext. intros m. now rewrite channelIds_includes. }
  split; [reflexivity|]. split; [reflexivity|]. split; [exact Hmsgs|].
  split.
  { intros s. simpl. rewrite filter_In, negb_true_iff, sameString_neq. tauto. }
  split.
  { intros c. simpl. rewrite filter_In, negb_true_iff, sameString_neq. tauto. }
  split.
  { intros m. rewrite Hmsgs, filter_In, negb_true_iff, <- channelOf_spec.
    destruct (channelOf id (channels state) (Message.channelId m)); intuition congruence. }
  split.
  { intros E. simpl. rewrite E. simpl. now rewrite jsstring_eqb_refl. }
  split.
  { intros E. simpl. destruct (selectedServerId state) as [x|]; simpl; [|reflexivity].
    destruct (jsstring_eqb x id) eqn:Hx; [|reflexivity].
    apply jsstring_eqb_eq in Hx. congruence. }
  split.
  { intros x E Hin. simpl. rewrite channelIds_includes, E. simpl.
    apply channelOf_spec in Hin.
    destruct x as [|u x]; simpl; now rewrite Hin. }
  split.
  { intros Hout. simpl. rewrite channelIds_includes.
    destruct (selectedChannelId state) as [x|] eqn:E; simpl.
    - assert (Hx : channelOf id (channels state) x = false).
      { destruct (channelOf id (channels state) x) eqn:Hc; [|reflexivity].
        apply channelOf_spec in Hc as (c & Hc & E1 & E2).
        now destruct (Hout x c eq_refl Hc E1). }
      destruct x as [|u x]; simpl; now rewrite Hx.
    - now destruct (channelOf id (channels state) []). }
  split; [simpl; tauto|].
  intros Hs Hc.
  assert (Hcs : filter (fun c => negb (sameString (Channel.serverId c) id)) (channels state)
                = channels state).
  { apply filter_unchanged. intros c Hin. apply negb_true_iff, sameString_neq. now apply Hc. }
  split; [|split].
  - simpl. apply filter_unchanged. intros s Hin.
    apply negb_true_iff, sameString_neq. now apply Hs.
  - exact Hcs.
  - rewrite Hmsgs. apply filter_unchanged. intros m _. apply negb_true_iff.
    destruct (channelOf id (channels state) (Message.channelId m)) eqn:E; [|reflexivity].
    apply channelOf_spec in E as (c & Hin & E1 & _). now destruct (Hc c Hin).
Qed.

(* ================================================================== *)
(** * [sort] *)
(* ================================================================== *)

Section SortFacts.
Variable A : Type.
Variable cmp : A -> A -> Z.

Lemma insertSorted_Permutation (x : A) (l : list A) :
  Permutation (insertSorted cmp x l) (x :: l).
Proof.
  induction l as [|y l IH]; simpl; [reflexivity|].
  destruct (cmp x y <=? 0)%Z; [reflexivity|].
  rewrite IH. apply perm_swap.
Qed.

Lemma sort_Permutation (l : list A) : Permutation (sort cmp l) l.
Proof.
  induction l as [|x l IH]; simpl; [reflexivity|].
  rewrite insertSorted_Permutation. now constructor.
Qed.

Lemma sort_In (l : list A) (x : A) : In x (sort cmp l) <-> In x l.
Proof.
  split; apply Permutation_in; [|symmetry]; apply sort_Permutation.
Qed.

(** The order a comparator decides: [le] holds where it answers at most
    0, and the other way round where it answers more. *)
Variable le : A -> A -> Prop.
Hypothesis le_trans : forall a b c, le a b -> le b c -> le a c.
Hypothesis cmp_le : forall a b, (cmp a b <= 0)%Z -> le a b.
Hypothesis cmp_gt : forall a b, (0 < cmp a b)%Z -> le b a.

Lemma insertSorted_sorted (x : A) (l : list A) :
  StronglySorted le l -> StronglySorted le (insertSorted cmp x l).
Proof.
  induction 1 as [|y l Hs IH Hy]; simpl.
  - repeat constructor.
  - destruct (cmp x y <=? 0)%Z eqn:E.
    + apply Z.leb_le in E. constructor; [now constructor|].
      constructor; [now apply cmp_le|].
      revert Hy. apply Forall_impl. intros z. apply le_trans. now apply cmp_le.
    + apply Z.leb_gt in E. constructor; [assumption|].
      eapply Permutation_Forall.
      * symmetry. apply insertSorted_Permutation.
      * constructor; [now apply cmp_gt | assumption].
Qed.

Lemma sort_sorted (l : list A) : StronglySorted le (sort cmp l).
Proof.
  induction l as [|x l IH]; simpl; [constructor | now apply insertSorted_sorted].
Qed.

End SortFacts.

(** [sort] is stable: elements none of which the comparator puts after
    another keep their order. *)
Lemma insertSorted_stable {A : Type} (cmp : A -> A -> Z) (p : A -> bool) (x : A) (l : list A) :
  (forall a b, p a = true -> p b = true -> (cmp a b <= 0)%Z) ->
  filter p (insertSorted cmp x l) = filter p (x :: l).
Proof.
  intros Hp. induction l as [|y l IH]; simpl; [reflexivity|].
  destruct (cmp x y <=? 0)%Z eqn:E; [reflexivity|].
  simpl in *. rewrite IH.
  destruct (p x) eqn:Hx, (p y) eqn:Hy; try reflexivity.
  apply Z.leb_gt in E. specialize (Hp x y Hx Hy). lia.
Qed.

Lemma sort_stable {A : Type} (cmp : A -> A -> Z) (p : A -> bool) (l : list A) :
  (forall a b, p a = true -> p b = true -> (cmp a b <= 0)%Z) ->
  filter p (sort cmp l) = filter p l.
Proof.
  intros Hp. induction l as [|x l IH]; simpl; [reflexivity|].
  rewrite insertSorted_stable by assumption. simpl. now rewrite IH.
Qed.

(* ================================================================== *)
(** * The derived views: pinned and bookmarked messages *)
(* ================================================================== *)

(** C7.  [getPinnedMessages] returns exactly the messages (each as often as
    the store holds it) that are pinned and whose channel is the selected
    one, by ascending [createdAt]; [getBookmarkedMessages] returns exactly
    the bookmarked messages of all channels, by descending [createdAt]. *)
Theorem pinned_and_bookmarked_views (state : AppStore) :
  (Permutation (getPinnedMessages state)
               (filter (fun m => truthy (Message.isPinned m)
                                 && sameOrNull (selectedChannelId state) (Message.channelId m))
                       (messages state))
   /\ (forall m, In m (getPinnedMessages state)
                 <-> In m (messages state) /\ pinnedIn (selectedChannelId state) m)
   /\ StronglySorted (fun a b => (Message.createdAt a <= Message.createdAt b)%Z)
                     (getPinnedMessages state))
  /\ (Permutation (getBookmarkedMessages state)
                  (filter (fun m => truthy (Message.isBookmarked m)) (messages state))
      /\ (forall m, In m (getBookmarkedMessages state)
                    <-> In m (messages state) /\ Message.isBookmarked m = Some true)
      /\ StronglySorted (fun a b => (Message.createdAt b <= Message.createdAt a)%Z)
                        (getBookmarkedMessages state)).
Proof.
  assert (Hfilter :
    filter (fun m => truthy (Message.isPinned m)
                     && match selectedChannelId state with
                        | Some c => sameString (Message.channelId m) c
                        | None => false
                        end) (messages state)
    = filter (fun m => truthy (Message.isPinned m)
                       && sameOrNull (selectedChannelId state) (Message.channelId m))
             (messages state)).
  { apply filter_ext. intros m. unfold sameOrNull, sameString.
    destruct (selectedChannelId state); [|reflexivity]. now rewrite jsstring_eqb_sym. }
  assert (Htruthy : forall b, truthy b = true <-> b = Some true).
  { intros [[|]|]; simpl; split; congruence. }
  split; split; [| split | | split].
  - unfold getPinnedMessages. rewrite Hfilter. apply sort_Permutation.
  - intros m. unfold getPinnedMessages, pinnedIn.
    rewrite sort_In, Hfilter, filter_In, andb_true_iff, Htruthy.
    unfold sameOrNull. destruct (selectedChannelId state) as [c|].
    + rewrite jsstring_eqb_eq. intuition congruence.
    + intuition congruence.
  - unfold getPinnedMessages. apply sort_sorted; intros; lia.
  - apply sort_Permutation.
  - intros m. unfold getBookmarkedMessages. now rewrite sort_In, filter_In, Htruthy.
  - unfold getBookmarkedMessages. apply sort_sorted; intros; lia.
Qed.

(* ================================================================== *)
(** * The derived views: search *)
(* ================================================================== *)







Lemma fold_left_push {A B : Type} (g : A -> list B) (l : list A) :
  forall acc, fold_left (fun acc x => acc ++ g x) l acc = acc ++ flat_map g l.
Proof.
  induction l as [|x l IH]; intros acc; simpl.
  - now rewrite app_nil_r.
  - now rewrite IH, app_assoc.
Qed.

Lemma fold_left_same {A B : Type} (f g : B -> A -> B) (l : list A) :
  (forall acc x, f acc x = g acc x) -> forall acc, fold_left f l acc = fold_left g l acc.
Proof.
  intros Hfg. induction l as [|x l IH]; intros acc; simpl; [reflexivity|].
  now rewrite Hfg, IH.
Qed.

Lemma nonEmpty_false (s : jsstring) : negb (nonEmpty s) = true <-> s = [].
Proof. destruct s; simpl; split; congruence. Qed.

Section Search.
Context `{Builtins}.


(** The loop of [getSearchResults] collects the hits in message order. *)
Lemma getSearchResults_unfold (state : AppStore) :
  getSearchResults state
  = let query := trim (toLowerCase (searchQuery state)) in
    if negb (nonEmpty query) then []
    else sort (fun a b => (Message.createdAt (message b) - Message.createdAt (message a))%Z)
              (flat_map (fun m => optionList (searchHit state query m)) (messages state)).
Proof.
  unfold getSearchResults. simpl.
  destruct (negb (nonEmpty (trim (toLowerCase (searchQuery state))))); [reflexivity|].
  f_equal. rewrite <- (app_nil_l (flat_map _ _)), <- fold_left_push.
  apply fold_left_same. intros results m. unfold searchHit.
  destruct (includes _ _); [|now rewrite app_nil_r].
  destruct (find _ (channels state)) as [c|]; [|now rewrite app_nil_r].
  destruct (find _ (servers state)) as [s|]; [reflexivity | now rewrite app_nil_r].
Qed.



End Search.

(* ================================================================== *)
(** * The persistence bridge *)
(* ================================================================== *)

Lemma saveData_item (data : json) (ls : Storage) :
  full ls = false -> item (saveData data ls) = Some (Document data).
Proof.
  intros E. unfold saveData, setItem. now rewrite E.
Qed.

Lemma saveData_full (data : json) (ls : Storage) : full (saveData data ls) = full ls.
Proof.
  unfold saveData, setItem. now destruct (full ls) eqn:E.
Qed.

(** C8 as first stated fails twice: text that is not JSON is answered
    with the default snapshot, which is not written to the storage; and a
    stored object without the collections is returned as it is. *)
Lemma loadData_malformed_payloads :
  (loadData 1 2 3 garbledStorage = (getDefaultData 1 2 3, garbledStorage)
   /\ item (snd (loadData 1 2 3 garbledStorage)) <> Some (Document (getDefaultData 1 2 3)))
  /\ (Get (JObject []) (utf16 "servers") = Normal None
      /\ loadData 1 2 3 fieldlessStorage = (JObject [], fieldlessStorage)
      /\ fst (loadData 1 2 3 fieldlessStorage) <> getDefaultData 1 2 3).
Proof.
  split; split.
  - reflexivity.
  - discriminate.
  - reflexivity.
  - split; [reflexivity | discriminate].
Qed.

Section Load.
Context `{Builtins}.

(** What the comparison of a version with a number does with each kind
    of value: only an object with an own [toString] entry, alone or in an
    array, makes it throw. *)
Lemma lessThan_number (m n : Z) : lessThan (Some (JNumber m)) n = Normal (m <? n)%Z.
Proof. reflexivity. Qed.

Lemma lessThan_object (props : list (jsstring * json)) (n : Z) :
  lessThan (Some (JObject props)) n
  = match lookup (utf16 "toString") props with
    | Some _ => Throw TypeError
    | None => Normal false
    end.
Proof.
  unfold lessThan, ToString. now destruct (lookup (utf16 "toString") props).
Qed.

(** C8, amended.  [loadData] never throws (it is a function to a
    snapshot and a storage).  With nothing stored, or the empty string,
    it makes the default snapshot, hands it to [saveData] (so that it is
    the stored snapshot unless the storage refuses the write) and
    returns it.  Stored text that parses to a value other than [null],
    and whose version the comparison with the current version takes
    without a throw, is returned as it is parsed, the collections
    unchecked, the storage untouched, unless its version is below the
    current one: then the version is stamped and the snapshot saved
    again.  So a snapshot of the current version that [saveData] stored is
    what [loadData] returns, and so is every stored object whose version
    is a number not below the current one.  For text that is not JSON, for
    [null], and for a version on which the comparison throws (an object
    with an own [toString] entry is one) it returns the default snapshot,
    in the last case with the storage as it was. *)
Theorem loadData_cases (t1 t2 t3 : Z) (ls : Storage) :
  (isFalsyText (getItem ls) = true ->
   loadData t1 t2 t3 ls
   = (getDefaultData t1 t2 t3, saveData (getDefaultData t1 t2 t3) ls)
   /\ (full ls = false ->
       item (snd (loadData t1 t2 t3 ls)) = Some (Document (getDefaultData t1 t2 t3))))
  /\ (forall data v,
        getItem ls = Some (Document data) ->
        Get data (utf16 "version") = Normal v ->
        lessThan v CURRENT_VERSION = Normal false ->
        loadData t1 t2 t3 ls = (data, ls))
  /\ (forall props,
        getItem ls = Some (Document (JObject props)) ->
        lessThan (lookup (utf16 "version") props) CURRENT_VERSION = Normal true ->
        loadData t1 t2 t3 ls
        = (JObject (assign (utf16 "version") (JNumber CURRENT_VERSION) props),
           saveData (JObject (assign (utf16 "version") (JNumber CURRENT_VERSION) props)) ls))
  /\ (forall data v,
        full ls = false ->
        Get data (utf16 "version") = Normal v ->
        lessThan v CURRENT_VERSION = Normal false ->
        loadData t1 t2 t3 (saveData data ls) = (data, saveData data ls))
  /\ (forall raw,
        getItem ls = Some (Malformed raw) ->
        fst (loadData t1 t2 t3 ls) = getDefaultData t1 t2 t3)
  /\ (getItem ls = Some (Document JNull) ->
      fst (loadData t1 t2 t3 ls) = getDefaultData t1 t2 t3)
  /\ (forall props m,
        getItem ls = Some (Document (JObject props)) ->
        lookup (utf16 "version") props = Some (JNumber m) ->
        (CURRENT_VERSION <= m)%Z ->
        loadData t1 t2 t3 ls = (JObject props, ls))
  /\ (forall data v e,
        getItem ls = Some (Document data) ->
        Get data (utf16 "version") = Normal v ->
        lessThan v CURRENT_VERSION = Throw e ->
        loadData t1 t2 t3 ls = (getDefaultData t1 t2 t3, ls))
  /\ (forall props entries x,
        getItem ls = Some (Document (JObject props)) ->
        lookup (utf16 "version") props = Some (JObject entries) ->
        lookup (utf16 "toString") entries = Some x ->
        loadData t1 t2 t3 ls = (getDefaultData t1 t2 t3, ls)).
Proof.
  assert (Hread : forall st data v,
             getItem st = Some (Document data) ->
             Get data (utf16 "version") = Normal v ->
             lessThan v CURRENT_VERSION = Normal false ->
             loadData t1 t2 t3 st = (data, st)).
  { intros st data v Hraw Hget Hlt. unfold loadData, loadData_try.
    rewrite Hraw. simpl. rewrite Hget, Hlt. reflexivity. }
  assert (Hthrow : forall data v e,
             getItem ls = Some (Document data) ->
             Get data (utf16 "version") = Normal v ->
             lessThan v CURRENT_VERSION = Throw e ->
             loadData t1 t2 t3 ls = (getDefaultData t1 t2 t3, ls)).
  { intros data v e Hraw Hget Hlt. unfold loadData, loadData_try.
    rewrite Hraw. simpl. rewrite Hget, Hlt. reflexivity. }
  split.
  { intros Hraw.
    assert (E : loadData t1 t2 t3 ls
                = (getDefaultData t1 t2 t3, saveData (getDefaultData t1 t2 t3) ls)).
    { unfold loadData, loadData_try. now rewrite Hraw. }
    split; [exact E|]. intros Hfull. rewrite E. simpl. now apply saveData_item. }
  split; [apply Hread|].
  split.
  { intros props Hraw Hlt. unfold loadData, loadData_try.
    rewrite Hraw. simpl. rewrite Hlt. reflexivity. }
  split.
  { intros data v Hfull Hget Hlt. apply (Hread _ data v); try assumption.
    unfold getItem. now apply saveData_item. }
  split.
  { intros raw Hraw. unfold loadData, loadData_try. rewrite Hraw.
    destruct raw; reflexivity. }
  split.
  { intros Hraw. unfold loadData, loadData_try. rewrite Hraw. reflexivity. }
  split.
  { intros props m Hraw Hv Hm. apply (Hread ls _ (Some (JNumber m)) Hraw).
    - simpl. now rewrite Hv.
    - rewrite lessThan_number. f_equal. apply Z.ltb_ge. exact Hm. }
  split; [exact Hthrow|].
  intros props entries x Hraw Hv Hx.
  apply (Hthrow _ (Some (JObject entries)) TypeError Hraw).
  - simpl. now rewrite Hv.
  - rewrite lessThan_object. now rewrite Hx.
Qed.

End Load.

Lemma importData_truthy (data : json) (ls : Storage) :
  (forall k, In k collections ->
             exists v, Get data k = Normal (Some v) /\ ToBoolean (Some v) = true) ->
  importData (onload (Document data)) ls = (Resolved data, saveData data ls).
Proof.
  intros Hall.
  destruct (Hall (utf16 "servers")) as (v1 & G1 & B1); [simpl; tauto|].
  destruct (Hall (utf16 "channels")) as (v2 & G2 & B2); [simpl; tauto|].
  destruct (Hall (utf16 "messages")) as (v3 & G3 & B3); [simpl; tauto|].
  unfold importData, importData_try. simpl JSON_parse. cbv iota.
  rewrite G1, B1. simpl negb. cbv iota.
  rewrite G2, B2. simpl negb. cbv iota.
  rewrite G3, B3. reflexivity.
Qed.

Lemma importData_rejects_unchanged (file : FileRead) (ls ls' : Storage) (e : Error) :
  importData file ls = (Rejected e, ls') -> ls' = ls.
Proof.
  unfold importData. destruct file as [result|]; [|congruence].
  destruct (importData_try result ls) as [[data st]|e']; congruence.
Qed.

(** C9.  [importData] parses the text of the file and tests the three
    collection fields, and nothing deeper.  When each is there (an array,
    or any value that is not falsy) it hands the snapshot to [saveData]
    (so that it is the stored snapshot unless the storage refuses the
    write) and resolves with it.  When the text does not parse, when a
    field is missing, or when the file cannot be read, it rejects; and
    whenever it rejects the storage is as it was. *)
Theorem importData_cases (ls : Storage) :
  (forall data,
      (forall k, In k collections -> exists items, Get data k = Normal (Some (JArray items))) ->
      importData (onload (Document data)) ls = (Resolved data, saveData data ls)
      /\ (full ls = false -> item (saveData data ls) = Some (Document data)))
  /\ (forall data,
        (forall k, In k collections ->
                   exists v, Get data k = Normal (Some v) /\ ToBoolean (Some v) = true) ->
        importData (onload (Document data)) ls = (Resolved data, saveData data ls))
  /\ (forall raw, importData (onload (Malformed raw)) ls = (Rejected SyntaxError, ls))
  /\ (forall data k,
        In k collections -> (forall v, Get data k <> Normal (Some v)) ->
        exists e, importData (onload (Document data)) ls = (Rejected e, ls))
  /\ (exists e, importData onerror ls = (Rejected e, ls))
  /\ (forall file e ls', importData file ls = (Rejected e, ls') -> ls' = ls)
  /\ (forall file data ls',
        importData file ls = (Resolved data, ls') ->
        file = onload (Document data) /\ ls' = saveData data ls).
Proof.
  split.
  { intros data Hall. split; [|apply saveData_item].
    apply importData_truthy. intros k Hk. destruct (Hall k Hk) as [items E].
    now exists (JArray items). }
  split; [intros data Hall; now apply importData_truthy|].
  split; [reflexivity|].
  split.
  { intros data k Hk Hmiss.
    assert (Hrej : forall r, importData (onload (Document data)) ls = r ->
                             (exists e, r = (Rejected e, ls))
                             \/ r = (Resolved data, saveData data ls)
                                /\ forall k', In k' collections ->
                                              exists v, Get data k' = Normal (Some v)).
    { intros r <-. unfold importData, importData_try. simpl JSON_parse. cbv iota.
      destruct (Get data (utf16 "servers")) as [[v1|]|e1] eqn:G1;
        try (left; eexists; reflexivity).
      destruct (ToBoolean (Some v1)); cbv beta iota delta [negb];
        try (left; eexists; reflexivity).
      destruct (Get data (utf16 "channels")) as [[v2|]|e2] eqn:G2;
        try (left; eexists; reflexivity).
      destruct (ToBoolean (Some v2)); cbv beta iota delta [negb];
        try (left; eexists; reflexivity).
      destruct (Get data (utf16 "messages")) as [[v3|]|e3] eqn:G3;
        try (left; eexists; reflexivity).
      destruct (ToBoolean (Some v3)); cbv beta iota delta [negb];
        try (left; eexists; reflexivity).
      right. split; [reflexivity|].
      intros k' [<- | [<- | [<- | []]]]; eauto. }
    destruct (Hrej _ eq_refl) as [[e E] | [_ Hall]].
    - now exists e.
    - destruct (Hall k Hk) as [v Hv]. now destruct (Hmiss v). }
  split; [eexists; reflexivity|].
  split; [intros file e ls' E; now apply (importData_rejects_unchanged file ls ls' e)|].
  intros file data ls'. unfold importData.
  destruct file as [[raw|value]|]; simpl; try congruence.
  unfold importData_try. simpl JSON_parse. cbv iota.
  destruct (Get value (utf16 "servers")) as [s|e1]; [|congruence].
  destruct (negb (ToBoolean s)); [congruence|].
  destruct (Get value (utf16 "channels")) as [c|e2]; [|congruence].
  destruct (negb (ToBoolean c)); [congruence|].
  destruct (Get value (utf16 "messages")) as [m|e3]; [|congruence].
  destruct (negb (ToBoolean m)); [congruence|].
  intros E. injection E as <- <-. now split.
Qed.

(* ================================================================== *)
(** * The theorems at concrete inputs *)
(* ================================================================== *)

(** C1 at [smallStore] and [sampleWrites]. *)
Lemma tags_follow_content_witness :
  Forall (tagsConsistent TAG_REGEX) (messages smallStore)
  /\ forall m, In m (messages (applyWrites TAG_REGEX sampleWrites smallStore)) ->
       Message.tags m = tagsField (parseTags TAG_REGEX (Message.content m))
       /\ Message.tags m <> Some []
       /\ (Message.tags m = None <-> matchAll (Message.content m) TAG_REGEX = []).
Proof.
  assert (Hsmall : Forall (tagsConsistent TAG_REGEX) (messages smallStore))
    by (repeat constructor).
  split; [exact Hsmall|].
  exact (proj2 (tags_follow_content sampleWrites) TAG_REGEX smallStore Hsmall).
Defined.

(** C4 at [smallStore] and an id that nothing there carries. *)
Lemma deleteServer_cascade_witness :
  ((forall s, In s (servers smallStore) -> Server.id s <> utf16 "other")
   /\ (forall c, In c (channels smallStore) -> Channel.serverId c <> utf16 "other"))
  /\ servers (fst (deleteServer (utf16 "other") smallStore)) = servers smallStore
  /\ channels (fst (deleteServer (utf16 "other") smallStore)) = channels smallStore
  /\ messages (fst (deleteServer (utf16 "other") smallStore)) = messages smallStore.
Proof.
  assert (Hs : forall s, In s (servers smallStore) -> Server.id s <> utf16 "other").
  { intros s [<- | []]. discriminate. }
  assert (Hc : forall c, In c (channels smallStore) -> Channel.serverId c <> utf16 "other").
  { intros c [<- | []]. discriminate. }
  split; [now split|].
  apply (deleteServer_cascade (utf16 "other") smallStore); assumption.
Defined.

(** C8 at a storage that holds nothing. *)
Lemma loadData_cases_witness :
  (isFalsyText (getItem emptyStorage) = true /\ full emptyStorage = false)
  /\ loadData 1 2 3 emptyStorage
     = (getDefaultData 1 2 3, saveData (getDefaultData 1 2 3) emptyStorage)
  /\ item (snd (loadData 1 2 3 emptyStorage)) = Some (Document (getDefaultData 1 2 3)).
Proof.
  split; [now split|].
  destruct (loadData_cases 1 2 3 emptyStorage) as [Hnone _].
  destruct (Hnone eq_refl) as [E Hitem].
  split; [exact E | exact (Hitem eq_refl)].
Defined.

(** C9 at the snapshot of [smallStore]. *)
Lemma importData_cases_witness :
  (forall k, In k collections ->
             exists items, Get smallSnapshot k = Normal (Some (JArray items)))
  /\ importData (onload (Document smallSnapshot)) emptyStorage
     = (Resolved smallSnapshot, saveData smallSnapshot emptyStorage)
  /\ item (saveData smallSnapshot emptyStorage) = Some (Document smallSnapshot).
Proof.
  assert (Hall : forall k, In k collections ->
                           exists items, Get smallSnapshot k = Normal (Some (JArray items))).
  { intros k [<- | [<- | [<- | []]]]; eexists; reflexivity. }
  split; [exact Hall|].
  destruct (importData_cases emptyStorage) as [Hok _].
  destruct (Hok smallSnapshot Hall) as [E Hitem].
  split; [exact E | exact (Hitem eq_refl)].
Defined.

(** C10 at a content with one token amid other text. *)
Lemma hasTags_consecutive_calls_witness :
  (exists m, execAll (utf16 "see #Todo, later") TAG_REGEX = [m])
  /\ fst (hasTags (utf16 "see #Todo, later") TAG_REGEX) = true
  /\ fst (hasTags (utf16 "see #Todo, later")
                  (snd (hasTags (utf16 "see #Todo, later") TAG_REGEX))) = false
  /\ snd (hasTags (utf16 "see #Todo, later")
                  (snd (hasTags (utf16 "see #Todo, later") TAG_REGEX))) = TAG_REGEX.
Proof.
  split; [eexists; reflexivity|].
  exact (proj2 hasTags_consecutive_calls_differ (utf16 "see #Todo, later") _ eq_refl).
Defined.

(* ================================================================== *)
(** * Examples *)
(* ================================================================== *)

Example parseTags_sample :
  parseTags TAG_REGEX (utf16 "#a #b #a") = [utf16 "a"; utf16 "b"].
Proof. reflexivity. Qed.

Example parseTags_hangul_sample :
  parseTags TAG_REGEX (utf16 "메모 #프로젝트/개발 #Todo_1!")
  = [utf16 "프로젝트/개발"; utf16 "todo_1"].
Proof. vm_compute. reflexivity. Qed.

Example parseContentWithTags_sample :
  parseContentWithTags (utf16 "x #A y")
  = [TextPart (utf16 "x "); TagPart (utf16 "#A") (utf16 "a"); TextPart (utf16 " y")].
Proof. reflexivity. Qed.

(** [matchAll] starts where [TAG_REGEX] stands: once [hasTags] has moved it,
    [parseTags] misses the tokens before that position. *)
Example parseTags_after_hasTags :
  lastIndex (snd (hasTags (utf16 "#a") TAG_REGEX)) = 2
  /\ parseTags (snd (hasTags (utf16 "#a") TAG_REGEX)) (utf16 "#a #b #a")
     = [utf16 "b"; utf16 "a"].
Proof. split; reflexivity. Qed.

Example sampleWrites_tags :
  map Message.tags (messages (applyWrites TAG_REGEX sampleWrites smallStore))
  = [None; Some [utf16 "a"; utf16 "b"]].
Proof. reflexivity. Qed.

Example deleteServer_sample :
  let state := fst (deleteServer (utf16 "s1") (selectServer (Some (utf16 "s1")) smallStore)) in
  servers state = [] /\ channels state = [] /\ messages state = []
  /\ selectedServerId state = None /\ selectedChannelId state = None.
Proof. repeat split. Qed.

Example search_sample :
  map (fun r => Message.id (message r))
      (getSearchResults (setSearchQuery (utf16 "  WORLD ") smallStore))
  = [utf16 "m1"]
  /\ getSearchResults (setSearchQuery (utf16 "   ") smallStore) = []
  /\ getSearchResults (setSearchQuery (utf16 "general") smallStore) = [].
Proof. repeat split. Qed.

Example views_order_sample :
  map Message.createdAt (getPinnedMessages threeMessages) = [1; 2; 3]%Z
  /\ map Message.createdAt (getBookmarkedMessages threeMessages) = [3; 2; 1]%Z.
Proof. split; reflexivity. Qed.

(* ================================================================== *)
(** * tags.ts, the rest: properties *)
(* ================================================================== *)

Lemma isTagUnit_plain (u : N) : isTagUnit u = true -> plainUnit u = true.
Proof.
  unfold isTagUnit, plainUnit, isWordUnit. intros E.
  destruct (isHangulSyllable u); [now rewrite orb_true_r|].
  rewrite orb_false_r in *. apply orb_true_iff. left.
  repeat rewrite ?orb_true_iff, ?andb_true_iff, ?N.leb_le, ?N.eqb_eq in E.
  apply N.ltb_lt. lia.
Qed.

Lemma isTagUnit_not_space (u : N) : isTagUnit u = true -> isWhiteSpace u = false.
Proof.
  unfold isTagUnit, isWordUnit, isHangulSyllable, isWhiteSpace. intros E.
  repeat rewrite ?orb_true_iff, ?andb_true_iff, ?N.leb_le, ?N.eqb_eq in E.
  repeat rewrite ?orb_false_iff, ?andb_false_iff, ?N.leb_gt, ?N.eqb_neq. lia.
Qed.

Lemma lowerUnit_tag (u : N) : isTagUnit u = true -> isLowerTagUnit (lowerUnit u) = true.
Proof.
  unfold isLowerTagUnit, isTagUnit, isWordUnit, isHangulSyllable, lowerUnit. intros E.
  repeat rewrite ?orb_true_iff, ?andb_true_iff, ?N.leb_le, ?N.eqb_eq in E.
  destruct ((65 <=? u) && (u <=? 90))%N eqn:Hu.
  - apply andb_true_iff in Hu as [H1 H2]. apply N.leb_le in H1, H2.
    repeat rewrite ?orb_true_iff, ?andb_true_iff, ?negb_true_iff, ?andb_false_iff,
      ?N.leb_le, ?N.leb_gt, ?N.eqb_eq. lia.
  - rewrite Hu. apply andb_false_iff in Hu.
    repeat rewrite ?N.leb_gt in Hu.
    repeat rewrite ?orb_true_iff, ?andb_true_iff, ?negb_true_iff, ?andb_false_iff,
      ?N.leb_le, ?N.leb_gt, ?N.eqb_eq. lia.
Qed.

Lemma lowerUnit_lower (u : N) : isLowerTagUnit u = true -> lowerUnit u = u.
Proof.
  unfold isLowerTagUnit, lowerUnit. intros E.
  apply andb_true_iff in E as [_ E]. apply negb_true_iff in E. now rewrite E.
Qed.

Lemma isLowerTagUnit_tag (u : N) : isLowerTagUnit u = true -> isTagUnit u = true.
Proof. unfold isLowerTagUnit. intros E. now apply andb_true_iff in E. Qed.

Lemma forallb_impl {A : Type} (p q : A -> bool) (l : list A) :
  (forall x, p x = true -> q x = true) -> forallb p l = true -> forallb q l = true.
Proof.
  intros Hpq. rewrite !forallb_forall. intros Hp x Hx. now apply Hpq, Hp.
Qed.

Lemma trimStart_keeps (s : jsstring) :
  match s with
  | u :: _ => isWhiteSpace u = false
  | [] => True
  end -> trimStart s = s.
Proof.
  destruct s as [|u s]; simpl; [reflexivity|]. now intros ->.
Qed.

(** [trim] leaves a text without white space as it is. *)
Lemma trim_plain (s : jsstring) :
  forallb (fun u => negb (isWhiteSpace u)) s = true -> trim s = s.
Proof.
  intros E. unfold trim, trimEnd.
  assert (Hs : trimStart s = s).
  { apply trimStart_keeps. destruct s as [|u s]; [exact I|].
    simpl in E. apply andb_true_iff in E as [E _]. now apply negb_true_iff. }
  rewrite Hs.
  assert (Hr : trimStart (rev s) = rev s).
  { apply trimStart_keeps. destruct (rev s) as [|u r] eqn:Hrev; [exact I|].
    rewrite forallb_forall in E. apply negb_true_iff, E.
    apply in_rev. rewrite Hrev. now left. }
  now rewrite Hr, rev_involutive.
Qed.

Lemma takeWhile_whole (p : N -> bool) (s : jsstring) :
  forallb p s = true -> takeWhile p s = s.
Proof.
  induction s as [|u s IH]; simpl; [reflexivity|].
  intros E. apply andb_true_iff in E as [-> E]. now rewrite IH.
Qed.

Lemma tokensOf_none (s : jsstring) :
  forallb isTagUnit s = true -> tokensOf s = [].
Proof.
  intros E. rewrite <- (app_nil_r s). now rewrite tokensOf_run.
Qed.

Lemma scanFrom_capture (suffix : jsstring) :
  forall i m, scanFrom suffix i = Some m -> forallb isTagUnit (capture m) = true.
Proof.
  induction suffix as [|u rest IH]; intros i m Hscan; [discriminate|].
  simpl in Hscan. destruct (isHash u); [|now apply (IH (S i))].
  destruct (takeWhile isTagUnit rest) as [|v run] eqn:Hrun; [now apply (IH (S i))|].
  injection Hscan as <-. simpl capture. rewrite <- Hrun. apply takeWhile_all.
Qed.

(** What every match of the loop looks like. *)
Lemma exec_shape (str : jsstring) (R R' : RegExp) (m : RegExpMatch) :
  exec str R = (Some m, R') ->
  matched m = 35%N :: capture m /\ capture m <> []
  /\ forallb isTagUnit (capture m) = true.
Proof.
  unfold exec. intros E.
  destruct (length str <? lastIndex R); [discriminate|].
  destruct (scanFrom (skipn (lastIndex R) str) (lastIndex R)) as [m'|] eqn:Hscan;
    [|discriminate].
  injection E as <- _.
  destruct (scanFrom_split _ _ _ Hscan) as (pre & post & _ & _ & Hm & Hc).
  split; [exact Hm|]. split; [exact Hc|]. now apply (scanFrom_capture _ _ _ Hscan).
Qed.

Lemma execAll_shape (str : jsstring) (R : RegExp) :
  Forall (fun m => matched m = 35%N :: capture m /\ capture m <> []
                   /\ forallb isTagUnit (capture m) = true)
         (execAll str R).
Proof.
  apply (execAll_ind str (fun _ ms => Forall _ ms)).
  - intros. constructor.
  - intros R0 m R' E IH. constructor; [now apply (exec_shape str R0 R')|assumption].
Qed.

Lemma tokensOf_shape (s : jsstring) :
  Forall (fun t => t <> [] /\ forallb isTagUnit t = true) (tokensOf s).
Proof.
  pose proof (execAll_tokensOf s {| lastIndex := 0 |} (Nat.le_0_l _)) as E.
  simpl in E. rewrite <- E. apply Forall_map. generalize (execAll_shape s {| lastIndex := 0 |}).
  apply Forall_impl. intros m (_ & H1 & H2). now split.
Qed.

Section TagUtilsProperties.
Context `{Builtins}.

Lemma toLowerCase_tag (t : jsstring) :
  forallb isTagUnit t = true -> toLowerCase t = map lowerUnit t.
Proof.
  intros E. apply toLowerCase_plain. revert E. apply forallb_impl, isTagUnit_plain.
Qed.

Lemma toLowerCase_tag_shape (t : jsstring) :
  t <> [] -> forallb isTagUnit t = true ->
  toLowerCase t <> [] /\ forallb isLowerTagUnit (toLowerCase t) = true.
Proof.
  intros Hne E. rewrite (toLowerCase_tag t E). split.
  - destruct t; [congruence | discriminate].
  - rewrite forallb_forall in *. intros u Hu.
    apply in_map_iff in Hu as (v & <- & Hv). now apply lowerUnit_tag, E.
Qed.

Lemma toLowerCase_lower (t : jsstring) :
  forallb isLowerTagUnit t = true -> toLowerCase t = t.
Proof.
  intros E. rewrite toLowerCase_tag.
  - apply map_unchanged. intros u Hu. rewrite forallb_forall in E.
    now apply lowerUnit_lower, E.
  - revert E. apply forallb_impl, isLowerTagUnit_tag.
Qed.

(** Every stored tag is non-empty and written in the lower alphabet; put
    behind a hash it parses to itself, alone; and [normalizeTag] of it,
    with or without the hash, is the tag. *)
Theorem parseTags_alphabet_roundtrip (content t : jsstring) :
  In t (parseTags TAG_REGEX content) ->
  t <> [] /\ forallb isLowerTagUnit t = true
  /\ parseTags TAG_REGEX (35%N :: t) = [t]
  /\ normalizeTag (35%N :: t) = t
  /\ normalizeTag t = t.
Proof.
  rewrite parseTags_tokensOf, firstOccurrences_In, in_map_iff.
  intros (tok & <- & Htok).
  pose proof (tokensOf_shape content) as Hshape. rewrite Forall_forall in Hshape.
  destruct (Hshape tok Htok) as [Hne Hall].
  destruct (toLowerCase_tag_shape tok Hne Hall) as [Hne' Hlow].
  remember (toLowerCase tok) as t eqn:Ht. clear Ht tok Htok Hne Hall.
  assert (Htag : forallb isTagUnit t = true)
    by (revert Hlow; apply forallb_impl, isLowerTagUnit_tag).
  assert (Htrim : trim t = t).
  { apply trim_plain. revert Htag. apply forallb_impl. intros u Hu.
    now rewrite (isTagUnit_not_space u Hu). }
  assert (Hstrip : stripHash t = t).
  { destruct t as [|u t']; [reflexivity|]. simpl.
    simpl in Htag. apply andb_true_iff in Htag as [Hu _].
    now rewrite (isTagUnit_not_hash u Hu). }
  split; [exact Hne'|]. split; [exact Hlow|]. split; [|split].
  - rewrite parseTags_tokensOf. simpl.
    rewrite (takeWhile_whole _ _ Htag), (tokensOf_none _ Htag).
    destruct t as [|u t']; [congruence|]. simpl.
    now rewrite (toLowerCase_lower (u :: t') Hlow).
  - unfold normalizeTag. simpl. now rewrite (toLowerCase_lower t Hlow).
  - unfold normalizeTag. now rewrite Hstrip, (toLowerCase_lower t Hlow).
Qed.

End TagUtilsProperties.

Lemma tagParts_app (l l' : list ContentPart) : tagParts (l ++ l') = tagParts l ++ tagParts l'.
Proof. apply flat_map_app. Qed.

Lemma segmented_snoc_tag (l : list ContentPart) (c t : jsstring) :
  forall b, segmented b (l ++ [TagPart c t]) = segmented b l
            /\ endsInText b (l ++ [TagPart c t]) = false.
Proof.
  induction l as [|[c'|c' t'] l IH]; intros b; simpl.
  - now split.
  - destruct (IH true) as [-> ->]. now split.
  - apply IH.
Qed.

Lemma segmented_snoc_text (l : list ContentPart) (c : jsstring) :
  forall b, segmented b (l ++ [TextPart c])
            = segmented b l && nonEmpty c && negb (endsInText b l).
Proof.
  induction l as [|[c'|c' t'] l IH]; intros b; simpl.
  - now rewrite andb_true_r.
  - rewrite IH. now rewrite <- !andb_assoc.
  - apply IH.
Qed.

Lemma slice_nonEmpty (s : jsstring) (a b : nat) :
  a < b -> b <= length s -> nonEmpty (slice s a b) = true.
Proof.
  intros Hab Hb. unfold slice.
  assert (Hlen : length (firstn (b - a) (skipn a s)) = b - a).
  { rewrite length_firstn, length_skipn. lia. }
  destruct (firstn (b - a) (skipn a s)); [simpl in Hlen; lia | reflexivity].
Qed.

Lemma sliceFrom_nonEmpty (s : jsstring) (a : nat) :
  a < length s -> nonEmpty (sliceFrom s a) = true.
Proof.
  intros Ha. unfold sliceFrom.
  assert (Hlen : length (skipn a s) = length s - a) by apply length_skipn.
  destruct (skipn a s); [simpl in Hlen; lia | reflexivity].
Qed.

Section SegmenterProperties.
Context `{Builtins}.

Lemma pushMatch_tagParts (content : jsstring) (ms : list RegExpMatch) :
  forall parts last,
    tagParts (fst (fold_left (pushMatch content) ms (parts, last)))
    = tagParts parts ++ map (fun m => (matched m, toLowerCase (capture m))) ms.
Proof.
  induction ms as [|m ms IH]; intros parts last; simpl.
  - now rewrite app_nil_r.
  - rewrite IH. destruct (last <? index m); rewrite ?tagParts_app; simpl;
      rewrite ?app_nil_r, <- ?app_assoc; reflexivity.
Qed.

Lemma parseContentWithTags_tagParts (content : jsstring) :
  tagParts (parseContentWithTags content)
  = map (fun m => (matched m, toLowerCase (capture m)))
        (execAll content {| lastIndex := 0 |}).
Proof.
  unfold parseContentWithTags.
  pose proof (pushMatch_tagParts content (execAll content {| lastIndex := 0 |}) [] 0) as E.
  destruct (fold_left _ _ _) as [parts last]. simpl in E.
  destruct (last <? length content); [|exact E].
  rewrite tagParts_app. simpl. now rewrite app_nil_r.
Qed.

(** The segmenter and the parser agree: the tag parts of a content are, in
    order, its token occurrences, each with the hash in [content] and
    lower-cased in [tag]; their tags, deduplicated, are what [parseTags]
    returns; and [normalizeTag] of a part's [content] is its [tag]. *)
Theorem segments_agree_with_parseTags (content : jsstring) :
  tagParts (parseContentWithTags content)
  = map (fun tok => (35%N :: tok, toLowerCase tok)) (tokensOf content)
  /\ firstOccurrences (map snd (tagParts (parseContentWithTags content)))
     = parseTags TAG_REGEX content
  /\ Forall (fun part => normalizeTag (fst part) = snd part)
            (tagParts (parseContentWithTags content)).
Proof.
  assert (E : tagParts (parseContentWithTags content)
              = map (fun tok => (35%N :: tok, toLowerCase tok)) (tokensOf content)).
  { rewrite parseContentWithTags_tagParts.
    pose proof (execAll_tokensOf content {| lastIndex := 0 |} (Nat.le_0_l _)) as Htok.
    simpl in Htok. rewrite <- Htok, map_map.
    apply map_ext_in. intros m Hm.
    pose proof (execAll_shape content {| lastIndex := 0 |}) as Hshape.
    rewrite Forall_forall in Hshape. destruct (Hshape m Hm) as [-> _]. reflexivity. }
  split; [exact E|]. split.
  - rewrite E, map_map. simpl. now rewrite parseTags_tokensOf.
  - rewrite E. apply Forall_map. generalize (tokensOf_shape content).
    apply Forall_impl. intros tok [Hne Hall]. simpl.
    destruct (toLowerCase_tag_shape tok Hne Hall) as [_ Hlow].
    unfold normalizeTag. simpl. apply trim_plain. revert Hlow.
    apply forallb_impl. intros u Hu.
    now rewrite (isTagUnit_not_space u (isLowerTagUnit_tag u Hu)).
Qed.

Lemma pushMatch_segmented (content : jsstring) :
  forall R,
    lastIndex R <= length content ->
    forall parts,
      segmented false parts = true -> endsInText false parts = false ->
      forall parts' last,
        fold_left (pushMatch content) (execAll content R) (parts, lastIndex R)
        = (parts', last) ->
        segmented false parts' = true /\ endsInText false parts' = false
        /\ last <= length content.
Proof.
  apply (execAll_ind content
           (fun R ms =>
              lastIndex R <= length content ->
              forall parts,
                segmented false parts = true -> endsInText false parts = false ->
                forall parts' last,
                  fold_left (pushMatch content) ms (parts, lastIndex R) = (parts', last) ->
                  segmented false parts' = true /\ endsInText false parts' = false
                  /\ last <= length content)).
  - intros R R' _ Hle parts Hseg Hend parts' last E. simpl in E.
    injection E as <- <-. now repeat split.
  - intros R m R' E IH Hle parts Hseg Hend parts' last Hfold.
    destruct (exec_Some _ _ _ _ E) as (H1 & H2 & H3 & H4 & _).
    simpl in Hfold. rewrite <- H2 in Hfold.
    apply (IH H3) in Hfold; [assumption| |].
    + destruct (lastIndex R <? index m) eqn:Hlt.
      * apply Nat.ltb_lt in Hlt.
        destruct (segmented_snoc_tag (parts ++ [TextPart (slice content (lastIndex R) (index m))])
                    (matched m) (toLowerCase (capture m)) false) as [-> _].
        rewrite segmented_snoc_text, Hseg, Hend, slice_nonEmpty by lia. reflexivity.
      * destruct (segmented_snoc_tag parts (matched m) (toLowerCase (capture m)) false)
          as [-> _]. exact Hseg.
    + destruct (lastIndex R <? index m);
        apply (proj2 (segmented_snoc_tag _ _ _ false)).
Qed.

(** The segmenter returns no empty text part and never two text parts in
    a row. *)
Theorem segments_well_formed (content : jsstring) :
  segmented false (parseContentWithTags content) = true.
Proof.
  unfold parseContentWithTags.
  destruct (fold_left (pushMatch content) (execAll content {| lastIndex := 0 |}) ([], 0))
    as [parts last] eqn:Hfold.
  destruct (pushMatch_segmented content {| lastIndex := 0 |} (Nat.le_0_l _) []
              eq_refl eq_refl _ _ Hfold) as (Hseg & Hend & Hlast).
  destruct (last <? length content) eqn:Hlt; [|exact Hseg].
  apply Nat.ltb_lt in Hlt.
  now rewrite segmented_snoc_text, Hseg, Hend, sliceFrom_nonEmpty.
Qed.

End SegmenterProperties.

(* ================================================================== *)
(** * [hasTags] and the position of [TAG_REGEX] *)
(* ================================================================== *)

Lemma execAll_length_tokensOf (content : jsstring) :
  length (execAll content TAG_REGEX) = length (tokensOf content).
Proof.
  pose proof (execAll_tokensOf content TAG_REGEX (Nat.le_0_l _)) as E.
  simpl in E. now rewrite <- E, length_map.
Qed.

Section HasTagsProperties.
Context `{Builtins}.

(** From where the module creates [TAG_REGEX], [hasTags] tells whether the
    content has a token, that is whether [parseTags] returns anything.
    Wherever [TAG_REGEX] stands, a [false] puts it back at the start, and
    a [true] leaves it inside the content, at least two units in. *)
Theorem hasTags_answers (content : jsstring) (R : RegExp) :
  (fst (hasTags content TAG_REGEX) = true <-> tokensOf content <> [])
  /\ (fst (hasTags content TAG_REGEX) = true <-> parseTags TAG_REGEX content <> [])
  /\ (fst (hasTags content R) = false -> snd (hasTags content R) = TAG_REGEX)
  /\ (fst (hasTags content R) = true ->
      2 <= lastIndex (snd (hasTags content R)) <= length content).
Proof.
  assert (Hrest : fst (hasTags content TAG_REGEX) = true <-> tokensOf content <> []).
  { pose proof (execAll_tokensOf content TAG_REGEX (Nat.le_0_l _)) as E. simpl in E.
    rewrite <- E, execAll_unfold. unfold hasTags, test.
    destruct (exec content TAG_REGEX) as [[m|] R']; simpl; split; congruence. }
  split; [exact Hrest|]. split.
  { rewrite Hrest, parseTags_tokensOf.
    destruct (tokensOf content); simpl; split; congruence. }
  unfold hasTags, test. destruct (exec content R) as [[m|] R'] eqn:E; simpl.
  - split; [discriminate|]. intros _.
    destruct (exec_Some _ _ _ _ E) as (_ & H2 & H3 & H4 & _). lia.
  - split; [|discriminate]. intros _. now apply exec_None in E.
Qed.

End HasTagsProperties.

Lemma hasTagsTimes_execAll (content : jsstring) :
  forall R,
    hasTagsTimes (S (length (execAll content R))) content R
    = (repeat true (length (execAll content R)) ++ [false], TAG_REGEX).
Proof.
  apply (execAll_ind content
           (fun R ms => hasTagsTimes (S (length ms)) content R
                        = (repeat true (length ms) ++ [false], TAG_REGEX))).
  - intros R R' E. simpl. unfold hasTags, test. rewrite E.
    now rewrite (exec_None _ _ _ E).
  - intros R m R' E IH.
    change (hasTagsTimes (S (length (m :: execAll content R'))) content R)
      with (let (answer, R0) := hasTags content R in
            let (answers, R1) := hasTagsTimes (S (length (execAll content R'))) content R0 in
            (answer :: answers, R1)).
    unfold hasTags at 1. unfold test. rewrite E, IH. reflexivity.
Qed.

(** Called again and again on one content from the start, [hasTags]
    answers [true] once for each token of the content, then [false], and is
    then back where it started: the answers repeat with that period. *)
Theorem hasTags_cycle (content : jsstring) :
  hasTagsTimes (S (length (tokensOf content))) content TAG_REGEX
  = (repeat true (length (tokensOf content)) ++ [false], TAG_REGEX).
Proof.
  rewrite <- execAll_length_tokensOf. apply hasTagsTimes_execAll.
Qed.

(* ================================================================== *)
(** * The derived views: tag statistics *)
(* ================================================================== *)

Lemma fold_Set_add_nil (l : list jsstring) : fold_left Set_add l [] = firstOccurrences l.
Proof.
  rewrite fold_Set_add. simpl.
  induction (firstOccurrences l) as [|x l' IH]; simpl in *; congruence.
Qed.

Lemma orZero_Some (z : Z) : orZero (Some z) = z.
Proof. unfold orZero. destruct (z =? 0)%Z eqn:E; [apply Z.eqb_eq in E; lia | reflexivity]. Qed.

Lemma Map_get_set (m : list (jsstring * Z)) (k k' : jsstring) (v : Z) :
  Map_get (Map_set m k v) k' = if jsstring_eqb k k' then Some v else Map_get m k'.
Proof.
  induction m as [|[k0 v0] m IH]; simpl.
  - reflexivity.
  - destruct (jsstring_eqb k0 k) eqn:E0; simpl.
    + apply jsstring_eqb_eq in E0. subst k0.
      now destruct (jsstring_eqb k k').
    + destruct (jsstring_eqb k0 k') eqn:E1; [|exact IH].
      apply jsstring_eqb_eq in E1. subst k0.
      rewrite jsstring_eqb_sym in E0. now rewrite E0.
Qed.

Lemma Map_set_keys (m : list (jsstring * Z)) (k : jsstring) (v : Z) :
  map fst (Map_set m k v) = Set_add (map fst m) k.
Proof.
  unfold Set_add. induction m as [|[k0 v0] m IH]; simpl; [reflexivity|].
  rewrite (jsstring_eqb_sym k k0).
  destruct (jsstring_eqb k0 k); simpl; [reflexivity|].
  rewrite IH. now destruct (existsb (jsstring_eqb k) (map fst m)).
Qed.

Lemma countTag_keys (l : list jsstring) :
  forall m, map fst (fold_left countTag l m) = fold_left Set_add l (map fst m).
Proof.
  induction l as [|x l IH]; intros m; simpl; [reflexivity|].
  rewrite IH. unfold countTag. now rewrite Map_set_keys.
Qed.

Lemma countTag_values (l : list jsstring) (k : jsstring) :
  forall m, orZero (Map_get (fold_left countTag l m) k)
            = (orZero (Map_get m k) + Z.of_nat (count_occ jsstring_eq_dec l k))%Z.
Proof.
  induction l as [|x l IH]; intros m; simpl; [lia|].
  rewrite IH. unfold countTag at 1. rewrite Map_get_set.
  destruct (jsstring_eq_dec x k) as [->|Hne].
  - rewrite jsstring_eqb_refl, orZero_Some. lia.
  - apply jsstring_eqb_neq in Hne. rewrite Hne. lia.
Qed.

(** A map with distinct keys is its keys with their values. *)
Lemma Map_entries (m : list (jsstring * Z)) :
  NoDup (map fst m) -> m = map (fun k => (k, orZero (Map_get m k))) (map fst m).
Proof.
  induction m as [|[k v] m IH]; simpl; [reflexivity|].
  intros Hnd. inversion Hnd as [|? ? Hk Hnd']; subst.
  rewrite jsstring_eqb_refl, orZero_Some. f_equal.
  rewrite (IH Hnd') at 1. apply map_ext_in. intros k' Hk'.
  destruct (jsstring_eqb k k') eqn:E; [|reflexivity].
  apply jsstring_eqb_eq in E. congruence.
Qed.

Lemma tagCounts_flat_map (msgs : list Message.t) :
  forall m,
    fold_left (fun tagCounts message =>
                 match Message.tags message with
                 | Some tags => fold_left countTag tags tagCounts
                 | None => tagCounts
                 end) msgs m
    = fold_left countTag
                (flat_map (fun x => match Message.tags x with
                                    | Some tags => tags
                                    | None => []
                                    end) msgs) m.
Proof.
  induction msgs as [|x msgs IH]; intros m; simpl; [reflexivity|].
  rewrite fold_left_app, IH. now destruct (Message.tags x).
Qed.

(** [getAllTags] is the sorted reference reading. *)
Lemma getAllTags_unfold (state : AppStore) :
  getAllTags state
  = sort (fun a b => (TagStats.count b - TagStats.count a)%Z) (tagEntries (allTags state)).
Proof.
  unfold getAllTags, tagEntries, allTags. f_equal.
  rewrite tagCounts_flat_map.
  set (all := flat_map _ (messages state)).
  assert (Hkeys : map fst (fold_left countTag all []) = firstOccurrences all).
  { rewrite countTag_keys. apply fold_Set_add_nil. }
  rewrite (Map_entries (fold_left countTag all [])) at 1
    by (rewrite Hkeys; apply firstOccurrences_NoDup).
  rewrite Hkeys, map_map. apply map_ext. intros k. simpl.
  now rewrite countTag_values.
Qed.

Lemma tagEntries_tags (tags : list jsstring) :
  map TagStats.tag (tagEntries tags) = firstOccurrences tags.
Proof.
  unfold tagEntries. rewrite map_map. simpl. apply map_id.
Qed.

(** [getAllTags] lists each tag that some message carries exactly once,
    with the number of its occurrences over all messages (at least 1), by
    descending count; tags of equal count stand in the order in which they
    first occur in the store. *)
Theorem getAllTags_counts (state : AppStore) :
  Permutation (map TagStats.tag (getAllTags state)) (firstOccurrences (allTags state))
  /\ NoDup (map TagStats.tag (getAllTags state))
  /\ (forall t, In t (map TagStats.tag (getAllTags state))
                <-> exists m tags, In m (messages state) /\ Message.tags m = Some tags
                                   /\ In t tags)
  /\ (forall e, In e (getAllTags state) ->
                TagStats.count e
                = Z.of_nat (count_occ jsstring_eq_dec (allTags state) (TagStats.tag e))
                /\ (1 <= TagStats.count e)%Z)
  /\ StronglySorted (fun a b => (TagStats.count b <= TagStats.count a)%Z) (getAllTags state)
  /\ (forall n, filter (fun e => (TagStats.count e =? n)%Z) (getAllTags state)
                = filter (fun e => (TagStats.count e =? n)%Z) (tagEntries (allTags state))).
Proof.
  rewrite getAllTags_unfold.
  assert (Hperm : Permutation
                    (map TagStats.tag
                         (sort (fun a b => (TagStats.count b - TagStats.count a)%Z)
                               (tagEntries (allTags state))))
                    (firstOccurrences (allTags state))).
  { rewrite <- tagEntries_tags. apply Permutation_map, sort_Permutation. }
  split; [exact Hperm|]. split.
  { apply (Permutation_NoDup (Permutation_sym Hperm)), firstOccurrences_NoDup. }
  split.
  { intros t. split.
    - intros Ht. apply (Permutation_in _ Hperm) in Ht.
      apply (proj1 (firstOccurrences_In _ _)) in Ht. unfold allTags in Ht.
      apply in_flat_map in Ht as (m & Hm & Ht).
      destruct (Message.tags m) as [tags|] eqn:E; [|destruct Ht].
      now exists m, tags.
    - intros (m & tags & Hm & E & Ht).
      apply (Permutation_in _ (Permutation_sym Hperm)), (proj2 (firstOccurrences_In _ _)).
      unfold allTags. apply in_flat_map. exists m. split; [assumption|]. now rewrite E. }
  split.
  { intros e He. apply sort_In in He. unfold tagEntries in He.
    apply in_map_iff in He as (t & <- & Ht). simpl. split; [reflexivity|].
    apply (proj1 (firstOccurrences_In _ _)) in Ht.
    apply (count_occ_In jsstring_eq_dec) in Ht. lia. }
  split; [apply sort_sorted; intros; lia|].
  intros n. apply sort_stable. intros a b Ha Hb.
  apply Z.eqb_eq in Ha, Hb. lia.
Qed.

(* ================================================================== *)
(** * The derived views: the selectors, and ties in the sorted views *)
(* ================================================================== *)

Lemma orNull_Some (s : option jsstring) (t : jsstring) :
  orNull s = Some t <-> s = Some t /\ t <> [].
Proof.
  destruct s as [[|u s']|]; simpl; split; try congruence;
    try (intros [E Hne]; congruence).
  intros E. injection E as <-. split; [reflexivity | discriminate].
Qed.

Lemma orNull_None (s : option jsstring) :
  orNull s = None <-> s = None \/ s = Some [].
Proof.
  destruct s as [[|u s']|]; simpl; split; try tauto; try congruence.
  intros [E | E]; discriminate.
Qed.

Lemma useCurrentMessages_unfold (state : AppStore) :
  useCurrentMessages state
  = sort (fun a b => (Message.createdAt a - Message.createdAt b)%Z)
         (filter (shownInChannel state) (messages state)).
Proof.
  unfold useCurrentMessages. f_equal. apply filter_ext. intros m.
  unfold shownInChannel, sameOrNull, carriesTag, sameString.
  destruct (selectedChannelId state) as [c|]; simpl; [|reflexivity].
  rewrite (jsstring_eqb_sym c). now destruct (jsstring_eqb (Message.channelId m) c).
Qed.

Lemma carriesTag_spec (tag : jsstring) (m : Message.t) :
  carriesTag tag m = true <-> exists tags, Message.tags m = Some tags /\ In tag tags.
Proof.
  unfold carriesTag. destruct (Message.tags m) as [tags|].
  - rewrite Array_includes_In. split.
    + intros Hin. now exists tags.
    + intros (tags' & E & Hin). congruence.
  - split; [discriminate | intros (tags & E & _); discriminate].
Qed.

Lemma shownInChannel_spec (state : AppStore) (m : Message.t) :
  shownInChannel state m = true
  <-> selectedChannelId state = Some (Message.channelId m)
      /\ (forall t, selectedTag state = Some t -> t <> [] ->
                    exists tags, Message.tags m = Some tags /\ In t tags).
Proof.
  unfold shownInChannel. rewrite andb_true_iff.
  assert (Hc : sameOrNull (selectedChannelId state) (Message.channelId m) = true
               <-> selectedChannelId state = Some (Message.channelId m)).
  { unfold sameOrNull. destruct (selectedChannelId state) as [c|].
    - rewrite jsstring_eqb_eq. split; congruence.
    - split; discriminate. }
  rewrite Hc. apply and_iff_compat_l.
  destruct (orNull (selectedTag state)) as [t|] eqn:E.
  - apply orNull_Some in E as [E Hne]. rewrite carriesTag_spec. split.
    + intros Hin t' E' _. assert (t' = t) by congruence. now subst t'.
    + intros Hall. now apply Hall.
  - apply orNull_None in E. split; [|reflexivity].
    intros _ t E' Hne. destruct E as [E | E]; congruence.
Qed.

(** [useCurrentMessages] returns exactly the messages of the selected
    channel (none when no channel is selected) that, when a tag is selected
    (the empty string selects none), hold it in their [tags]; by ascending
    [createdAt], messages of equal [createdAt] in store order.
    [useMessagesByTag] returns exactly the messages of all channels whose
    [tags] hold the tag, by descending [createdAt]. *)
Theorem message_selectors (state : AppStore) (tag : jsstring) :
  ((forall m, In m (useCurrentMessages state)
              <-> In m (messages state)
                  /\ selectedChannelId state = Some (Message.channelId m)
                  /\ (forall t, selectedTag state = Some t -> t <> [] ->
                                exists tags, Message.tags m = Some tags /\ In t tags))
   /\ Permutation (useCurrentMessages state)
                  (filter (shownInChannel state) (messages state))
   /\ StronglySorted (fun a b => (Message.createdAt a <= Message.createdAt b)%Z)
                     (useCurrentMessages state)
   /\ (forall n, filter (fun m => (Message.createdAt m =? n)%Z) (useCurrentMessages state)
                 = filter (fun m => (Message.createdAt m =? n)%Z)
                          (filter (shownInChannel state) (messages state)))
   /\ (selectedChannelId state = None -> useCurrentMessages state = []))
  /\ ((forall m, In m (useMessagesByTag tag state)
                 <-> In m (messages state)
                     /\ exists tags, Message.tags m = Some tags /\ In tag tags)
      /\ Permutation (useMessagesByTag tag state) (filter (carriesTag tag) (messages state))
      /\ StronglySorted (fun a b => (Message.createdAt b <= Message.createdAt a)%Z)
                        (useMessagesByTag tag state)).
Proof.
  split.
  - rewrite useCurrentMessages_unfold. split; [|split; [|split; [|split]]].
    + intros m. now rewrite sort_In, filter_In, shownInChannel_spec.
    + apply sort_Permutation.
    + apply sort_sorted; intros; lia.
    + intros n. apply sort_stable. intros a b Ha Hb. apply Z.eqb_eq in Ha, Hb. lia.
    + intros E.
      assert (Hnone : filter (shownInChannel state) (messages state) = []).
      { induction (messages state) as [|m ms IH]; simpl; [reflexivity|].
        unfold shownInChannel at 1. rewrite E. simpl. exact IH. }
      now rewrite Hnone.
  - split; [|split].
    + intros m. unfold useMessagesByTag.
      rewrite sort_In, filter_In. fold (carriesTag tag m). now rewrite carriesTag_spec.
    + apply sort_Permutation.
    + apply sort_sorted; intros; lia.
Qed.

Section ViewTies.
Context `{Builtins}.

(** In the pinned, bookmarked and search views too, entries of equal
    [createdAt] keep the order the messages have in the store. *)
Theorem sorted_views_keep_ties (state : AppStore) (n : Z) :
  filter (fun m => (Message.createdAt m =? n)%Z) (getPinnedMessages state)
  = filter (fun m => (Message.createdAt m =? n)%Z)
           (filter (fun m => truthy (Message.isPinned m)
                             && sameOrNull (selectedChannelId state) (Message.channelId m))
                   (messages state))
  /\ filter (fun m => (Message.createdAt m =? n)%Z) (getBookmarkedMessages state)
     = filter (fun m => (Message.createdAt m =? n)%Z)
              (filter (fun m => truthy (Message.isBookmarked m)) (messages state))
  /\ (trim (toLowerCase (searchQuery state)) <> [] ->
      filter (fun r => (Message.createdAt (message r) =? n)%Z) (getSearchResults state)
      = filter (fun r => (Message.createdAt (message r) =? n)%Z)
               (flat_map (fun m => optionList
                                     (searchHit state (trim (toLowerCase (searchQuery state))) m))
                         (messages state))).
Proof.
  split; [|split].
  - unfold getPinnedMessages. rewrite sort_stable.
    + f_equal. apply filter_ext. intros m. unfold sameOrNull, sameString.
      destruct (selectedChannelId state); [|reflexivity]. now rewrite jsstring_eqb_sym.
    + intros a b Ha Hb. apply Z.eqb_eq in Ha, Hb. lia.
  - unfold getBookmarkedMessages. apply sort_stable.
    intros a b Ha Hb. apply Z.eqb_eq in Ha, Hb. lia.
  - intros Hq. rewrite getSearchResults_unfold. simpl.
    destruct (trim (toLowerCase (searchQuery state))); [congruence|]. simpl.
    apply sort_stable. intros a b Ha Hb. apply Z.eqb_eq in Ha, Hb. lia.
Qed.

End ViewTies.

(* ================================================================== *)
(** * Tags in the views, under the invariant of the message writes *)
(* ================================================================== *)

Lemma count_occ_NoDup (l : list jsstring) (x : jsstring) :
  NoDup l ->
  count_occ jsstring_eq_dec l x = if Array_includes l x then 1 else 0.
Proof.
  intros Hnd.
  pose proof (proj1 (NoDup_count_occ jsstring_eq_dec l) Hnd x) as Hle.
  destruct (Array_includes l x) eqn:E.
  - apply Array_includes_In, (count_occ_In jsstring_eq_dec) in E. lia.
  - destruct (count_occ jsstring_eq_dec l x) as [|n] eqn:Hc; [reflexivity|].
    assert (Hin : In x l) by (apply (count_occ_In jsstring_eq_dec); lia).
    apply Array_includes_In in Hin. congruence.
Qed.

Lemma count_occ_carriers (msgs : list Message.t) (t : jsstring) :
  (forall m tags, In m msgs -> Message.tags m = Some tags -> NoDup tags) ->
  count_occ jsstring_eq_dec
            (flat_map (fun m => match Message.tags m with
                                | Some tags => tags
                                | None => []
                                end) msgs) t
  = length (filter (carriesTag t) msgs).
Proof.
  induction msgs as [|m msgs IH]; intros Hnd; [reflexivity|].
  cbn [flat_map filter]. rewrite count_occ_app.
  etransitivity.
  { apply f_equal2; [reflexivity|].
    apply IH. intros m' tags Hm' E'. apply (Hnd m' tags); [now right | exact E']. }
  unfold carriesTag at 2. destruct (Message.tags m) as [tags|] eqn:E; [|reflexivity].
  rewrite (count_occ_NoDup tags t) by (apply (Hnd m tags); [now left | assumption]).
  now destruct (Array_includes tags t).
Qed.

Section TagViews.
Context `{Builtins}.

Lemma tagsConsistent_carries (m : Message.t) (t : jsstring) :
  tagsConsistent TAG_REGEX m ->
  (carriesTag t m = true <-> In t (parseTags TAG_REGEX (Message.content m))).
Proof.
  unfold tagsConsistent, carriesTag. intros ->.
  destruct (parseTags TAG_REGEX (Message.content m)) as [|x l]; simpl tagsField; cbv iota.
  - split; [discriminate | intros []].
  - apply Array_includes_In.
Qed.

(** When every message carries the tags of its content (as after any
    message writes), each count of [getAllTags] is the number of messages
    that carry the tag, and a message carries a tag exactly when its
    content has a token that lower-cases to it: the tag filters select by
    content. *)
Theorem tag_views_follow_content (state : AppStore) :
  Forall (tagsConsistent TAG_REGEX) (messages state) ->
  (forall e, In e (getAllTags state) ->
             TagStats.count e
             = Z.of_nat (length (filter (carriesTag (TagStats.tag e)) (messages state))))
  /\ (forall t m, In m (messages state) ->
                  (carriesTag t m = true
                   <-> exists tok, In tok (tokensOf (Message.content m))
                                   /\ toLowerCase tok = t))
  /\ (forall t m, selectedTag state = Some t -> t <> [] ->
                  (In m (useCurrentMessages state)
                   <-> In m (messages state)
                       /\ selectedChannelId state = Some (Message.channelId m)
                       /\ exists tok, In tok (tokensOf (Message.content m))
                                      /\ toLowerCase tok = t)).
Proof.
  intros Hall. rewrite Forall_forall in Hall.
  assert (Hcarry : forall t m, In m (messages state) ->
                     (carriesTag t m = true
                      <-> exists tok, In tok (tokensOf (Message.content m))
                                      /\ toLowerCase tok = t)).
  { intros t m Hm. rewrite (tagsConsistent_carries m t (Hall m Hm)).
    rewrite parseTags_tokensOf, firstOccurrences_In, in_map_iff.
    split; intros (tok & H1 & H2); exists tok; tauto. }
  split; [|split; [exact Hcarry|]].
  - intros e He. rewrite getAllTags_unfold in He. apply sort_In in He.
    unfold tagEntries in He. apply in_map_iff in He as (t & <- & _). simpl.
    f_equal. unfold allTags. apply count_occ_carriers.
    intros m tags Hm E. specialize (Hall m Hm). unfold tagsConsistent in Hall.
    rewrite E in Hall.
    assert (Htags : tags = parseTags TAG_REGEX (Message.content m)).
    { destruct (parseTags TAG_REGEX (Message.content m)); simpl in Hall; congruence. }
    rewrite Htags, parseTags_firstOccurrences. apply firstOccurrences_NoDup.
  - intros t m Et Hne. rewrite useCurrentMessages_unfold, sort_In, filter_In.
    unfold shownInChannel.
    assert (Esel : orNull (selectedTag state) = Some t) by (apply orNull_Some; now split).
    rewrite Esel, andb_true_iff.
    assert (Hc : sameOrNull (selectedChannelId state) (Message.channelId m) = true
                 <-> selectedChannelId state = Some (Message.channelId m)).
    { unfold sameOrNull. destruct (selectedChannelId state) as [c|].
      - rewrite jsstring_eqb_eq. split; congruence.
      - split; discriminate. }
    rewrite Hc. split.
    + intros (Hm & Hsel & Hcar). apply (Hcarry t m Hm) in Hcar. tauto.
    + intros (Hm & Hsel & Htok). apply (Hcarry t m Hm) in Htok. tauto.
Qed.

End TagViews.

(** The tag views at [smallStore] with its tag selected. *)
Lemma tag_views_follow_content_witness :
  Forall (tagsConsistent TAG_REGEX) (messages smallStore)
  /\ (forall e, In e (getAllTags smallStore) ->
                TagStats.count e
                = Z.of_nat (length (filter (carriesTag (TagStats.tag e)) (messages smallStore))))
  /\ getAllTags smallStore = [{| TagStats.tag := utf16 "world"; TagStats.count := 1 |}].
Proof.
  assert (Hsmall : Forall (tagsConsistent TAG_REGEX) (messages smallStore))
    by (repeat constructor).
  split; [exact Hsmall|].
  split; [exact (proj1 (tag_views_follow_content smallStore Hsmall)) | reflexivity].
Defined.

(* ================================================================== *)
(** * The entity store: deleting a channel or a message, and selecting *)
(* ================================================================== *)

Lemma sameOrNull_spec (a : option jsstring) (b : jsstring) :
  sameOrNull a b = true <-> a = Some b.
Proof.
  unfold sameOrNull. destruct a as [a'|].
  - rewrite jsstring_eqb_eq. split; congruence.
  - split; discriminate.
Qed.

(** [deleteChannel id] keeps, in their order, exactly the channels of
    another id and the messages of another channel; it clears the channel
    selection if that was [id], also when no channel has the id; the
    servers and the rest of the state stay; and it changes nothing when no
    channel has the id, no message names it and it is not selected.
    [deleteMessage id] keeps exactly the messages of another id and leaves
    everything else. *)
Theorem deleteChannel_deleteMessage (id : jsstring) (state : AppStore) :
  ((forall c, In c (channels (fst (deleteChannel id state)))
              <-> In c (channels state) /\ Channel.id c <> id)
   /\ (forall m, In m (messages (fst (deleteChannel id state)))
                 <-> In m (messages state) /\ Message.channelId m <> id)
   /\ servers (fst (deleteChannel id state)) = servers state
   /\ selectedServerId (fst (deleteChannel id state)) = selectedServerId state
   /\ (selectedChannelId state = Some id ->
       selectedChannelId (fst (deleteChannel id state)) = None)
   /\ (selectedChannelId state <> Some id ->
       selectedChannelId (fst (deleteChannel id state)) = selectedChannelId state)
   /\ ((forall c, In c (channels state) -> Channel.id c <> id) ->
       (forall m, In m (messages state) -> Message.channelId m <> id) ->
       selectedChannelId state <> Some id ->
       fst (deleteChannel id state) = state))
  /\ ((forall m, In m (messages (fst (deleteMessage id state)))
                 <-> In m (messages state) /\ Message.id m <> id)
      /\ sameBesidesMessages state (fst (deleteMessage id state))
      /\ ((forall m, In m (messages state) -> Message.id m <> id) ->
          fst (deleteMessage id state) = state)).
Proof.
  split.
  - split; [|split; [|split; [|split; [|split; [|split]]]]].
    + intros c. simpl. rewrite filter_In, negb_true_iff, sameString_neq. tauto.
    + intros m. simpl. rewrite filter_In, negb_true_iff, sameString_neq. tauto.
    + reflexivity.
    + reflexivity.
    + intros E. simpl. apply sameOrNull_spec in E. now rewrite E.
    + intros Hne. simpl.
      destruct (sameOrNull (selectedChannelId state) id) eqn:E; [|reflexivity].
      apply sameOrNull_spec in E. congruence.
    + intros Hc Hm Hsel. unfold deleteChannel. simpl.
      rewrite (filter_unchanged _ (channels state)),
              (filter_unchanged _ (messages state)).
      * destruct (sameOrNull (selectedChannelId state) id) eqn:E.
        -- apply sameOrNull_spec in E. congruence.
        -- now destruct state.
      * intros m Hin. apply negb_true_iff, sameString_neq. now apply Hm.
      * intros c Hin. apply negb_true_iff, sameString_neq. now apply Hc.
  - split; [|split].
    + intros m. simpl. rewrite filter_In, negb_true_iff, sameString_neq. tauto.
    + unfold sameBesidesMessages. simpl. tauto.
    + intros Hm. simpl. apply setMessages_same. apply filter_unchanged.
      intros m Hin. apply negb_true_iff, sameString_neq. now apply Hm.
Qed.

(** [selectServer] leaves the collections alone.  With no id (or the empty
    string) it clears both selections.  With an id it selects that server,
    whether or not the store has it, and the first channel in store order
    that names it: so the channel it selects is a channel of that server,
    and it selects none when the server has no channel. *)
Theorem selectServer_first_channel (id : option jsstring) (state : AppStore) :
  (servers (selectServer id state) = servers state
   /\ channels (selectServer id state) = channels state
   /\ messages (selectServer id state) = messages state)
  /\ (id = None \/ id = Some [] ->
      selectedServerId (selectServer id state) = None
      /\ selectedChannelId (selectServer id state) = None)
  /\ (forall x, id = Some x -> x <> [] ->
        selectedServerId (selectServer id state) = Some x
        /\ (forall c, selectedChannelId (selectServer id state) = Some c ->
                      exists ch, In ch (channels state) /\ Channel.serverId ch = x
                                 /\ Channel.id ch = c)
        /\ ((forall ch, In ch (channels state) -> Channel.serverId ch <> x) ->
            selectedChannelId (selectServer id state) = None)
        /\ (forall before ch after,
              channels state = before ++ ch :: after ->
              (forall ch', In ch' before -> Channel.serverId ch' <> x) ->
              Channel.serverId ch = x ->
              selectedChannelId (selectServer id state) = orNull (Some (Channel.id ch)))).
Proof.
  split; [|split].
  - unfold selectServer. destruct (orNull id); now repeat split.
  - intros Hid. apply orNull_None in Hid. unfold selectServer. rewrite Hid. now split.
  - intros x -> Hx.
    assert (E : orNull (Some x) = Some x) by (apply orNull_Some; now split).
    assert (Hsel : selectedChannelId (selectServer (Some x) state)
                   = orNull (option_map Channel.id
                               (find (fun c => sameString (Channel.serverId c) x)
                                     (channels state)))).
    { unfold selectServer. now rewrite E. }
    split; [unfold selectServer; now rewrite E|]. split; [|split].
    + intros c Hc. rewrite Hsel in Hc.
      destruct (find _ (channels state)) as [ch|] eqn:Hfind; [|discriminate].
      apply find_some in Hfind as [Hin Hs]. apply sameString_eq in Hs.
      cbn [option_map] in Hc. apply orNull_Some in Hc as [Hc _]. injection Hc as Hc.
      now exists ch.
    + intros Hnone. rewrite Hsel.
      destruct (find _ (channels state)) as [ch|] eqn:Hfind; [|reflexivity].
      apply find_some in Hfind as [Hin Hs]. apply sameString_eq in Hs.
      now destruct (Hnone ch Hin).
    + intros before ch after Hch Hbefore Hs. rewrite Hsel, Hch.
      assert (Hfind : find (fun c => sameString (Channel.serverId c) x) (before ++ ch :: after)
                      = Some ch).
      { clear Hch. induction before as [|b before IH]; simpl.
        - apply sameString_eq in Hs. now rewrite Hs.
        - assert (Hb : sameString (Channel.serverId b) x = false)
            by (apply sameString_neq, Hbefore; now left).
          rewrite Hb. apply IH. intros ch' Hin. apply Hbefore. now right. }
      now rewrite Hfind.
Qed.

(* ================================================================== *)
(** * The entity store: references stay whole *)
(* ================================================================== *)

Lemma noOrphans_messages_map (f : Message.t -> Message.t) (state : AppStore) :
  (forall m, Message.channelId (f m) = Message.channelId m) ->
  noOrphans state -> noOrphans (setMessages (map f (messages state)) state).
Proof.
  intros Hf [Hc Hm]. split; simpl; [exact Hc|].
  intros m' Hin. apply in_map_iff in Hin as (m & <- & Hin).
  rewrite Hf. now apply Hm.
Qed.

Lemma noOrphans_messages_filter (p : Message.t -> bool) (state : AppStore) :
  noOrphans state -> noOrphans (setMessages (filter p (messages state)) state).
Proof.
  intros [Hc Hm]. split; simpl; [exact Hc|].
  intros m Hin. apply filter_In in Hin as [Hin _]. now apply Hm.
Qed.

Section References.
Context `{Builtins}.

(** An action keeps every channel under a server of the store and every
    message under a channel of the store, provided a new channel or
    message names a parent that is there and an update does not touch an
    id or a reference; the deletes, the edits and the toggles need
    nothing. *)
Theorem references_stay_whole (R : RegExp) (a : Action) (state : AppStore) :
  noOrphans state -> keepsReferences state a -> noOrphans (fst (perform R a state)).
Proof.
  intros Hno Hok. pose proof Hno as [Hc Hm].
  destruct a as [uuid now name icon | id updates | id | uuid now serverId name
                 | id updates | id | [uuid now channelId content | now id content]
                 | id | id | id]; simpl in Hok |- *.
  - (* addServer *)
    split; simpl; [|exact Hm].
    intros c Hin. destruct (Hc c Hin) as (s & Hs & E).
    exists s. split; [apply in_or_app; now left | exact E].
  - (* updateServer *)
    split; simpl; [|exact Hm].
    intros c Hin. destruct (Hc c Hin) as (s & Hs & E).
    exists (if sameString (Server.id s) id then mergeServer s updates else s).
    split; [now apply (in_map (fun s => if sameString (Server.id s) id
                                        then mergeServer s updates else s))|].
    destruct (sameString (Server.id s) id); [|exact E].
    simpl. now rewrite Hok.
  - (* deleteServer *)
    split; simpl.
    + intros c Hin. apply filter_In in Hin as [Hin Hne].
      apply negb_true_iff, sameString_neq in Hne.
      destruct (Hc c Hin) as (s & Hs & E). exists s. split; [|exact E].
      apply filter_In. split; [exact Hs|].
      apply negb_true_iff, sameString_neq. congruence.
    + intros m Hin. apply filter_In in Hin as [Hin Hout].
      rewrite channelIds_includes in Hout. apply negb_true_iff in Hout.
      destruct (Hm m Hin) as (c & Hcin & E). exists c. split; [|exact E].
      apply filter_In. split; [exact Hcin|].
      apply negb_true_iff, sameString_neq. intros Hs.
      assert (Hof : channelOf id (channels state) (Message.channelId m) = true)
        by (apply channelOf_spec; now exists c).
      congruence.
  - (* addChannel *)
    destruct Hok as (s & Hs & E). split; simpl.
    + intros c Hin. apply in_app_or in Hin as [Hin | [<- | []]].
      * now apply Hc.
      * now exists s.
    + intros m Hin. destruct (Hm m Hin) as (c & Hcin & Ec).
      exists c. split; [apply in_or_app; now left | exact Ec].
  - (* updateChannel *)
    destruct Hok as [Hid Hsid].
    assert (Hkeep : forall c,
               Channel.id (if sameString (Channel.id c) id then mergeChannel c updates else c)
               = Channel.id c
               /\ Channel.serverId (if sameString (Channel.id c) id
                                    then mergeChannel c updates else c)
                  = Channel.serverId c).
    { intros c. destruct (sameString (Channel.id c) id); [|now split].
      simpl. now rewrite Hid, Hsid. }
    split; simpl.
    + intros c' Hin. apply in_map_iff in Hin as (c & <- & Hin).
      rewrite (proj2 (Hkeep c)). now apply Hc.
    + intros m Hin. destruct (Hm m Hin) as (c & Hcin & E).
      exists (if sameString (Channel.id c) id then mergeChannel c updates else c).
      split; [now apply (in_map (fun c => if sameString (Channel.id c) id
                                          then mergeChannel c updates else c))|].
      now rewrite (proj1 (Hkeep c)).
  - (* deleteChannel *)
    split; simpl.
    + intros c Hin. apply filter_In in Hin as [Hin _]. now apply Hc.
    + intros m Hin. apply filter_In in Hin as [Hin Hne].
      apply negb_true_iff, sameString_neq in Hne.
      destruct (Hm m Hin) as (c & Hcin & E). exists c. split; [|exact E].
      apply filter_In. split; [exact Hcin|].
      apply negb_true_iff, sameString_neq. congruence.
  - (* addMessage *)
    destruct Hok as (c & Hcin & E). split; simpl; [exact Hc|].
    intros m Hin. apply in_app_or in Hin as [Hin | [<- | []]].
    + now apply Hm.
    + now exists c.
  - (* updateMessage *)
    apply (noOrphans_messages_map
             (fun m => if sameString (Message.id m) id
                       then editMessage content now (parseTags R content) m else m));
      [|exact Hno].
    intros m. now destruct (sameString (Message.id m) id).
  - (* deleteMessage *)
    now apply noOrphans_messages_filter.
  - (* togglePin *)
    apply (noOrphans_messages_map
             (fun m => if sameString (Message.id m) id then flipPinned m else m));
      [|exact Hno].
    intros m. now destruct (sameString (Message.id m) id).
  - (* toggleBookmark *)
    apply (noOrphans_messages_map
             (fun m => if sameString (Message.id m) id then flipBookmarked m else m));
      [|exact Hno].
    intros m. now destruct (sameString (Message.id m) id).
Qed.

(** In a store whose references are whole, the search drops nothing: every
    message whose lower-cased content holds the query is in the results. *)
Theorem search_finds_every_match (state : AppStore) (m : Message.t) :
  noOrphans state ->
  trim (toLowerCase (searchQuery state)) <> [] ->
  In m (messages state) ->
  includes (toLowerCase (Message.content m)) (trim (toLowerCase (searchQuery state))) = true ->
  exists r, In r (getSearchResults state) /\ message r = m.
Proof.
  intros [Hc Hm] Hq Hin Hinc.
  destruct (Hm m Hin) as (c & Hcin & Ec).
  destruct (find (fun c => sameString (Channel.id c) (Message.channelId m)) (channels state))
    as [c'|] eqn:Hfc.
  2:{ apply (find_none _ _ Hfc) in Hcin. apply sameString_neq in Hcin. congruence. }
  pose proof (find_some _ _ Hfc) as [Hc'in _].
  destruct (Hc c' Hc'in) as (s & Hsin & Es).
  destruct (find (fun s => sameString (Server.id s) (Channel.serverId c')) (servers state))
    as [s'|] eqn:Hfs.
  2:{ apply (find_none _ _ Hfs) in Hsin. apply sameString_neq in Hsin. congruence. }
  exists {| message := m; channel := c'; server := s' |}. split; [|reflexivity].
  rewrite getSearchResults_unfold. simpl.
  destruct (trim (toLowerCase (searchQuery state))) as [|u q] eqn:Eq; [congruence|]. simpl.
  apply sort_In, in_flat_map. exists m. split; [exact Hin|].
  unfold searchHit. rewrite Hinc, Hfc, Hfs. now left.
Qed.

End References.

(* ================================================================== *)
(** * The store and the storage behind it *)
(* ================================================================== *)

Section StoreAndStorage.
Context `{Builtins}.

(** Every action hands [saveData] the collections of the state it sets. *)
Lemma perform_snapshot (R : RegExp) (a : Action) (state : AppStore) :
  snd (perform R a state)
  = snapshot (servers (fst (perform R a state))) (channels (fst (perform R a state)))
             (messages (fst (perform R a state))).
Proof.
  destruct a as [uuid now name icon | id updates | id | uuid now serverId name
                 | id updates | id | [uuid now channelId content | now id content]
                 | id | id | id]; reflexivity.
Qed.

(** Every typed snapshot has a text: the entries in the order in which
    the adding actions write them. *)
Lemma StorageData_written_total (d : StorageData) :
  exists doc, StorageData_written d doc.
Proof.
  assert (Hall : forall (A : Type) (entries : A -> list (jsstring * json)) (l : list A),
             Forall2 (fun x => written (entries x)) l (map (fun x => JObject (entries x)) l)).
  { intros A entries l. induction l as [|x l IH]; constructor; [|exact IH].
    exists (entries x). split; [reflexivity | apply Permutation_refl]. }
  eexists. exists (map (fun x => JObject (Server_entries x)) (data_servers d)),
                  (map (fun x => JObject (Channel_entries x)) (data_channels d)),
                  (map (fun x => JObject (Message_entries x)) (data_messages d)).
  split; [reflexivity|]. repeat split; apply Hall.
Qed.

Lemma loadData_written (t1 t2 t3 : Z) (d : StorageData) (doc : json) (ls : Storage) :
  StorageData_written d doc -> version d = CURRENT_VERSION ->
  item ls = Some (Document doc) -> loadData t1 t2 t3 ls = (doc, ls).
Proof.
  intros (ss & cs & ms & -> & _) Hv E. unfold loadData, loadData_try, getItem.
  rewrite E, Hv. reflexivity.
Qed.

Lemma dispatch_total (R : RegExp) (world : AppStore * Storage) (a : Action) :
  exists world', dispatch R world a world'.
Proof.
  destruct world as [state ls].
  destruct (StorageData_written_total (snd (perform R a state))) as [doc Hdoc].
  eexists. apply (dispatch_saveData R state ls a doc Hdoc).
Qed.

Lemma dispatchAll_total (R : RegExp) (actions : list Action) (world : AppStore * Storage) :
  exists world', dispatchAll R world actions world'.
Proof.
  revert world. induction actions as [|a actions IH]; intros world.
  - exists world. constructor.
  - destruct (dispatch_total R world a) as [world' Hstep].
    destruct (IH world') as [world'' Hrun].
    exists world''. now apply (dispatchAll_next R world world' world'' a actions).
Qed.

Lemma dispatchAll_store (R : RegExp) (actions : list Action)
      (world world' : AppStore * Storage) :
  dispatchAll R world actions world' -> fst world' = performAll R actions (fst world).
Proof.
  induction 1 as [world | world world' world'' a actions Hstep Hrun IH]; [reflexivity|].
  rewrite IH. destruct Hstep as [state ls a doc Hdoc]. reflexivity.
Qed.

Lemma dispatchAll_full (R : RegExp) (actions : list Action)
      (world world' : AppStore * Storage) :
  dispatchAll R world actions world' -> full (snd world) = true -> snd world' = snd world.
Proof.
  induction 1 as [world | world world' world'' a actions Hstep Hrun IH]; [reflexivity|].
  intros Hfull. destruct Hstep as [state ls a doc Hdoc]. simpl in *.
  assert (E : saveData doc ls = ls) by (unfold saveData, setItem; now rewrite Hfull).
  rewrite E in IH. now apply IH.
Qed.

Lemma dispatchAll_stored (R : RegExp) (actions : list Action)
      (world world' : AppStore * Storage) :
  dispatchAll R world actions world' -> actions <> [] -> full (snd world) = false ->
  exists doc,
    item (snd world') = Some (Document doc)
    /\ StorageData_written (snapshot (servers (fst world')) (channels (fst world'))
                                     (messages (fst world'))) doc.
Proof.
  induction 1 as [world | world world' world'' a actions Hstep Hrun IH]; [congruence|].
  intros _ Hfull. destruct Hstep as [state ls a doc Hdoc]. simpl in *.
  destruct actions as [|a' actions].
  - inversion Hrun; subst. exists doc. simpl. split; [now apply saveData_item|].
    now rewrite <- perform_snapshot.
  - apply IH; [discriminate | now rewrite saveData_full].
Qed.

(** After any actions of the store, at least one, the store is what the
    actions make of it, whatever the storage does.  On a storage that
    takes writes, the storage then holds a text of exactly the collections
    of the store, under the current version, and [loadData] gives that
    document back without writing; a storage that refuses writes is left
    as it was.  The actions are [addServer], [updateServer],
    [deleteServer], [addChannel], [updateChannel], [deleteChannel],
    [addMessage], [updateMessage], [deleteMessage], [togglePin] and
    [toggleBookmark]. *)
Theorem storage_follows_store (R : RegExp) (actions : list Action)
        (world : AppStore * Storage) (t1 t2 t3 : Z) :
  actions <> [] ->
  (exists world', dispatchAll R world actions world')
  /\ (forall world',
        dispatchAll R world actions world' ->
        fst world' = performAll R actions (fst world)
        /\ (full (snd world) = false ->
            exists doc,
              item (snd world') = Some (Document doc)
              /\ StorageData_written (snapshot (servers (fst world')) (channels (fst world'))
                                               (messages (fst world'))) doc
              /\ loadData t1 t2 t3 (snd world') = (doc, snd world'))
        /\ (full (snd world) = true -> snd world' = snd world)).
Proof.
  intros Hne. split; [apply dispatchAll_total|].
  intros world' Hrun. split; [now apply (dispatchAll_store R actions)|]. split.
  - intros Hfull.
    destruct (dispatchAll_stored R actions world world' Hrun Hne Hfull) as (doc & Hitem & Hdoc).
    exists doc. split; [exact Hitem|]. split; [exact Hdoc|].
    now apply (loadData_written t1 t2 t3 _ doc _ Hdoc).
  - now apply (dispatchAll_full R actions).
Qed.

(** After [resetData] on a storage that takes writes, whatever it held,
    [loadData] returns the default snapshot that [resetData] made (with its
    time stamps, not new ones) and writes nothing.  After [importData] has
    resolved on such a storage with a document whose numbers are integers
    that a Number holds exactly, the document is an object and is what the
    storage holds, and [loadData] returns it as it is when its version
    compares as not below the current one (or it has none), returns it
    with the current version stamped, and saves that, when its version
    compares as below, and returns a new default snapshot, the storage
    untouched, when the comparison throws (the version is an object with
    an own [toString] entry, or an array that holds one). *)
Theorem loadData_after_reset_and_import (t1 t2 t3 t1' t2' t3' : Z) (ls : Storage) :
  full ls = false ->
  loadData t1' t2' t3' (snd (resetData t1 t2 t3 ls))
  = (getDefaultData t1 t2 t3, snd (resetData t1 t2 t3 ls))
  /\ (forall file data ls',
        importData file ls = (Resolved data, ls') ->
        safeIntegers data = true ->
        exists props,
          data = JObject props
          /\ item ls' = Some (Document data)
          /\ (lessThan (lookup (utf16 "version") props) CURRENT_VERSION = Normal false ->
              loadData t1' t2' t3' ls' = (data, ls'))
          /\ (lessThan (lookup (utf16 "version") props) CURRENT_VERSION = Normal true ->
              loadData t1' t2' t3' ls'
              = (JObject (assign (utf16 "version") (JNumber CURRENT_VERSION) props),
                 saveData (JObject (assign (utf16 "version") (JNumber CURRENT_VERSION) props))
                          ls'))
          /\ (forall e,
                lessThan (lookup (utf16 "version") props) CURRENT_VERSION = Throw e ->
                loadData t1' t2' t3' ls' = (getDefaultData t1' t2' t3', ls'))
          /\ (lookup (utf16 "version") props = None ->
              loadData t1' t2' t3' ls' = (data, ls'))
          /\ (forall m,
                lookup (utf16 "version") props = Some (JNumber m) ->
                (CURRENT_VERSION <= m)%Z ->
                loadData t1' t2' t3' ls' = (data, ls'))
          /\ (forall entries x,
                lookup (utf16 "version") props = Some (JObject entries) ->
                lookup (utf16 "toString") entries = Some x ->
                loadData t1' t2' t3' ls' = (getDefaultData t1' t2' t3', ls'))).
Proof.
  intros Hfull. split.
  - unfold resetData. simpl.
    unfold loadData, loadData_try, getItem.
    rewrite (saveData_item _ ls Hfull). reflexivity.
  - intros file data ls' E _.
    assert (Hres : file = onload (Document data) /\ ls' = saveData data ls).
    { unfold importData in E. destruct file as [[raw|value]|]; simpl in E; try congruence.
      unfold importData_try in E. simpl JSON_parse in E. cbv iota in E.
      destruct (Get value (utf16 "servers")) as [s|e1]; [|congruence].
      destruct (negb (ToBoolean s)); [congruence|].
      destruct (Get value (utf16 "channels")) as [c|e2]; [|congruence].
      destruct (negb (ToBoolean c)); [congruence|].
      destruct (Get value (utf16 "messages")) as [m|e3]; [|congruence].
      destruct (negb (ToBoolean m)); [congruence|].
      injection E as <- <-. now split. }
    destruct Hres as [-> ->].
    assert (Hobj : exists props, data = JObject props).
    { unfold importData, importData_try in E. simpl JSON_parse in E. cbv iota in E.
      destruct data as [| b | n | s | items | props]; try discriminate E.
      now exists props. }
    destruct Hobj as [props ->]. exists props.
    pose proof (saveData_item (JObject props) ls Hfull) as Hitem.
    assert (Hload : forall c,
               lessThan (lookup (utf16 "version") props) CURRENT_VERSION = c ->
               loadData t1' t2' t3' (saveData (JObject props) ls)
               = match c with
                 | Normal true =>
                   (JObject (assign (utf16 "version") (JNumber CURRENT_VERSION) props),
                    saveData (JObject (assign (utf16 "version") (JNumber CURRENT_VERSION)
                                              props))
                             (saveData (JObject props) ls))
                 | Normal false => (JObject props, saveData (JObject props) ls)
                 | Throw _ => (getDefaultData t1' t2' t3', saveData (JObject props) ls)
                 end).
    { intros c Hc. unfold loadData, loadData_try, getItem. rewrite Hitem. simpl.
      rewrite Hc. now destruct c as [[|]|e]. }
    split; [reflexivity|]. split; [exact Hitem|].
    split; [intros Hlt; exact (Hload _ Hlt)|].
    split; [intros Hlt; exact (Hload _ Hlt)|].
    split; [intros e Hlt; exact (Hload _ Hlt)|].
    split; [intros Hv; apply (Hload (Normal false)); now rewrite Hv|].
    split.
    + intros m Hv Hm. apply (Hload (Normal false)).
      rewrite Hv, lessThan_number. f_equal. now apply Z.ltb_ge.
    + intros entries x Hv Hx. apply (Hload (Throw TypeError)).
      rewrite Hv, lessThan_object. now rewrite Hx.
Qed.

End StoreAndStorage.

(* ================================================================== *)
(** * The entity store: updates of servers and channels *)
(* ================================================================== *)

(** [updateServer] and [updateChannel] rewrite, in place, the entities of
    the given id, overriding exactly the keys the updates carry; entities
    of another id, the other collections and the selections stay; with no
    entity of the id, or with updates that carry no key, nothing changes. *)
Theorem updates_frame (id : jsstring) (su : ServerUpdates.t) (cu : ChannelUpdates.t)
        (state : AppStore) :
  (Forall2 (fun s s' => if sameString (Server.id s) id
                        then s' = mergeServer s su else s' = s)
           (servers state) (servers (fst (updateServer id su state)))
   /\ channels (fst (updateServer id su state)) = channels state
   /\ messages (fst (updateServer id su state)) = messages state
   /\ selectedServerId (fst (updateServer id su state)) = selectedServerId state
   /\ selectedChannelId (fst (updateServer id su state)) = selectedChannelId state
   /\ ((forall s, In s (servers state) -> Server.id s <> id) ->
       fst (updateServer id su state) = state)
   /\ fst (updateServer id noServerUpdates state) = state)
  /\ (Forall2 (fun c c' => if sameString (Channel.id c) id
                           then c' = mergeChannel c cu else c' = c)
              (channels state) (channels (fst (updateChannel id cu state)))
      /\ servers (fst (updateChannel id cu state)) = servers state
      /\ messages (fst (updateChannel id cu state)) = messages state
      /\ selectedServerId (fst (updateChannel id cu state)) = selectedServerId state
      /\ selectedChannelId (fst (updateChannel id cu state)) = selectedChannelId state
      /\ ((forall c, In c (channels state) -> Channel.id c <> id) ->
          fst (updateChannel id cu state) = state)
      /\ fst (updateChannel id noChannelUpdates state) = state).
Proof.
  assert (Hs : forall l : list Server.t, l = servers state -> setServers l state = state)
    by (intros l ->; now destruct state).
  assert (Hc : forall l : list Channel.t, l = channels state -> setChannels l state = state)
    by (intros l ->; now destruct state).
  split; (split; [|split; [|split; [|split; [|split; [|split]]]]]);
    try reflexivity.
  - simpl. apply Forall2_map_r. intros s _. now destruct (sameString (Server.id s) id).
  - intros Hnone. simpl. apply Hs, map_unchanged. intros s Hin.
    apply Hnone, sameString_neq in Hin. now rewrite Hin.
  - simpl. apply Hs, map_unchanged. intros s _.
    destruct (sameString (Server.id s) id); [now destruct s | reflexivity].
  - simpl. apply Forall2_map_r. intros c _. now destruct (sameString (Channel.id c) id).
  - intros Hnone. simpl. apply Hc, map_unchanged. intros c Hin.
    apply Hnone, sameString_neq in Hin. now rewrite Hin.
  - simpl. apply Hc, map_unchanged. intros c _.
    destruct (sameString (Channel.id c) id); [now destruct c | reflexivity].
Qed.

(* ================================================================== *)
(** * The further theorems at concrete inputs *)
(* ================================================================== *)

Lemma noOrphans_smallStore : noOrphans smallStore.
Proof.
  split.
  - intros c [<- | []]. eexists. split; [left; reflexivity | reflexivity].
  - intros m [<- | []]. eexists. split; [left; reflexivity | reflexivity].
Qed.

(** The stored tag of ["x #Todo_1 y"]. *)
Lemma parseTags_alphabet_roundtrip_witness :
  In (utf16 "todo_1") (parseTags TAG_REGEX (utf16 "x #Todo_1 y"))
  /\ (utf16 "todo_1" <> [] /\ forallb isLowerTagUnit (utf16 "todo_1") = true
      /\ parseTags TAG_REGEX (35%N :: utf16 "todo_1") = [utf16 "todo_1"]
      /\ normalizeTag (35%N :: utf16 "todo_1") = utf16 "todo_1"
      /\ normalizeTag (utf16 "todo_1") = utf16 "todo_1").
Proof.
  assert (Hin : In (utf16 "todo_1") (parseTags TAG_REGEX (utf16 "x #Todo_1 y")))
    by (now left).
  split; [exact Hin|].
  exact (parseTags_alphabet_roundtrip (utf16 "x #Todo_1 y") (utf16 "todo_1") Hin).
Defined.

(** A new channel under the server of [smallStore]. *)
Lemma references_stay_whole_witness :
  (noOrphans smallStore
   /\ keepsReferences smallStore (AddChannel (utf16 "c2") 7 (utf16 "s1") (utf16 "notes")))
  /\ noOrphans (fst (perform TAG_REGEX (AddChannel (utf16 "c2") 7 (utf16 "s1") (utf16 "notes"))
                             smallStore)).
Proof.
  assert (Hok : keepsReferences smallStore
                  (AddChannel (utf16 "c2") 7 (utf16 "s1") (utf16 "notes"))).
  { simpl. eexists. split; [left; reflexivity | reflexivity]. }
  split; [split; [exact noOrphans_smallStore | exact Hok]|].
  exact (references_stay_whole TAG_REGEX _ smallStore noOrphans_smallStore Hok).
Defined.

(** The search for ["Hello"] in [smallStore]. *)
Lemma search_finds_every_match_witness :
  (noOrphans searchingStore
   /\ trim (toLowerCase (searchQuery searchingStore)) <> []
   /\ Forall (fun m => includes (toLowerCase (Message.content m))
                                (trim (toLowerCase (searchQuery searchingStore))) = true)
             (messages searchingStore))
  /\ Forall (fun m => exists r, In r (getSearchResults searchingStore) /\ message r = m)
            (messages searchingStore).
Proof.
  assert (Hno : noOrphans searchingStore) by exact noOrphans_smallStore.
  assert (Hq : trim (toLowerCase (searchQuery searchingStore)) <> []) by discriminate.
  assert (Hall : Forall (fun m => includes (toLowerCase (Message.content m))
                                   (trim (toLowerCase (searchQuery searchingStore))) = true)
                        (messages searchingStore))
    by (repeat constructor).
  split; [exact (conj Hno (conj Hq Hall))|].
  rewrite Forall_forall in *. intros m Hm.
  exact (search_finds_every_match searchingStore m Hno Hq Hm (Hall m Hm)).
Defined.

(** [sampleActions] on [smallStore] over an empty storage. *)
Lemma storage_follows_store_witness :
  sampleActions <> []
  /\ (exists world', dispatchAll TAG_REGEX (smallStore, emptyStorage) sampleActions world')
  /\ (forall world',
        dispatchAll TAG_REGEX (smallStore, emptyStorage) sampleActions world' ->
        fst world' = performAll TAG_REGEX sampleActions smallStore
        /\ exists doc,
             item (snd world') = Some (Document doc)
             /\ loadData 1 2 3 (snd world') = (doc, snd world')).
Proof.
  assert (Hne : sampleActions <> []) by discriminate.
  split; [exact Hne|].
  destruct (storage_follows_store TAG_REGEX sampleActions (smallStore, emptyStorage)
                                  1 2 3 Hne) as [Hrun Hall].
  split; [exact Hrun|].
  intros world' Hworld'. destruct (Hall world' Hworld') as (Hstore & Hsaved & _).
  split; [exact Hstore|].
  destruct (Hsaved eq_refl) as (doc & Hitem & _ & Hload).
  exists doc. split; [exact Hitem | exact Hload].
Defined.

(** A reset over text that is not JSON, and the import of [smallSnapshot]
    over it. *)
Lemma loadData_after_reset_witness :
  (full garbledStorage = false
   /\ importData (onload (Document smallSnapshot)) garbledStorage
      = (Resolved smallSnapshot, saveData smallSnapshot garbledStorage)
   /\ safeIntegers smallSnapshot = true)
  /\ loadData 4 5 6 (snd (resetData 1 2 3 garbledStorage))
     = (getDefaultData 1 2 3, snd (resetData 1 2 3 garbledStorage))
  /\ item (saveData smallSnapshot garbledStorage) = Some (Document smallSnapshot)
  /\ loadData 4 5 6 (saveData smallSnapshot garbledStorage)
     = (smallSnapshot, saveData smallSnapshot garbledStorage).
Proof.
  assert (Himport : importData (onload (Document smallSnapshot)) garbledStorage
                    = (Resolved smallSnapshot, saveData smallSnapshot garbledStorage))
    by reflexivity.
  split; [repeat split; reflexivity|].
  destruct (loadData_after_reset_and_import 1 2 3 4 5 6 garbledStorage eq_refl)
    as [Hreset Hafter].
  split; [exact Hreset|].
  destruct (Hafter _ _ _ Himport eq_refl) as (props & Hprops & Hitem & _ & _ & _ & _ & Hnum & _).
  split; [exact Hitem|].
  injection Hprops as <-.
  exact (Hnum 1%Z eq_refl ltac:(discriminate)).
Defined.

(* ================================================================== *)
(** * How the message actions compose *)
(* ================================================================== *)

Lemma tagCount_count_occ (state : AppStore) (t : jsstring) :
  tagCount state t = Z.of_nat (count_occ jsstring_eq_dec (allTags state) t).
Proof.
  unfold tagCount. rewrite getAllTags_unfold.
  destruct (find _ _) as [e|] eqn:Hfind.
  - apply find_some in Hfind as [Hin Ht]. apply sameString_eq in Ht.
    apply sort_In in Hin. unfold tagEntries in Hin.
    apply in_map_iff in Hin as (t' & <- & _). simpl in *. now subst t'.
  - destruct (count_occ jsstring_eq_dec (allTags state) t) as [|n] eqn:Hc; [reflexivity|].
    assert (Hin : In t (allTags state)) by (apply (count_occ_In jsstring_eq_dec); lia).
    apply (proj2 (firstOccurrences_In _ _)) in Hin.
    assert (He : In {| TagStats.tag := t;
                       TagStats.count := Z.of_nat (count_occ jsstring_eq_dec (allTags state) t) |}
                    (sort (fun a b => (TagStats.count b - TagStats.count a)%Z)
                          (tagEntries (allTags state)))).
    { apply sort_In. unfold tagEntries.
      now apply (in_map (fun t => {| TagStats.tag := t;
                                     TagStats.count :=
                                       Z.of_nat (count_occ jsstring_eq_dec (allTags state) t) |})). }
    apply (find_none _ _ Hfind) in He. simpl in He.
    unfold sameString in He. now rewrite jsstring_eqb_refl in He.
Qed.

Lemma allTags_setMessages (ms : list Message.t) (state : AppStore) :
  allTags (setMessages ms state)
  = flat_map (fun m => match Message.tags m with
                       | Some tags => tags
                       | None => []
                       end) ms.
Proof. reflexivity. Qed.

Lemma tagsField_list (ts : list jsstring) :
  match tagsField ts with
  | Some tags => tags
  | None => []
  end = ts.
Proof. now destruct ts. Qed.

Lemma filter_map_fixed {A : Type} (p : A -> bool) (g : A -> A) (l : list A) :
  (forall x, p (g x) = p x) -> (forall x, p x = true -> g x = x) ->
  filter p (map g l) = filter p l.
Proof.
  intros Hp Hg. induction l as [|x l IH]; simpl; [reflexivity|].
  rewrite Hp, IH. destruct (p x) eqn:E; [now rewrite Hg | reflexivity].
Qed.

Section Composition.
Context `{Builtins}.

(** [addMessage] raises by one the count [getAllTags] reports for each tag
    of the new content and leaves the other counts; the toggles leave all
    counts.  Of two [updateMessage] on one id the later one decides.  An
    [updateMessage] with the content a message has keeps its tags when
    they were those of its content.  [togglePin] twice gives back the
    pinned view, and [toggleBookmark] twice the bookmarked view. *)
Theorem message_actions_compose (R : RegExp) (uuid id channelId content content' : jsstring)
        (now now' : Z) (state : AppStore) (t : jsstring) :
  tagCount (fst (addMessage R uuid now channelId content state)) t
  = (tagCount state t + (if Array_includes (parseTags R content) t then 1 else 0))%Z
  /\ tagCount (fst (togglePin id state)) t = tagCount state t
  /\ tagCount (fst (toggleBookmark id state)) t = tagCount state t
  /\ fst (updateMessage R now' id content' (fst (updateMessage R now id content state)))
     = fst (updateMessage R now' id content' state)
  /\ (forall m, tagsConsistent R m ->
                Message.tags (editMessage (Message.content m) now
                                          (parseTags R (Message.content m)) m)
                = Message.tags m)
  /\ getPinnedMessages (fst (togglePin id (fst (togglePin id state))))
     = getPinnedMessages state
  /\ getBookmarkedMessages (fst (toggleBookmark id (fst (toggleBookmark id state))))
     = getBookmarkedMessages state.
Proof.
  assert (Hkeep : forall (f : Message.t -> Message.t),
             (forall m, Message.tags (f m) = Message.tags m) ->
             allTags (setMessages (map (fun m => if sameString (Message.id m) id
                                                 then f m else m) (messages state)) state)
             = allTags state).
  { intros f Hf. rewrite allTags_setMessages. unfold allTags.
    induction (messages state) as [|m ms IH]; simpl; [reflexivity|].
    rewrite IH. f_equal. destruct (sameString (Message.id m) id); [now rewrite Hf | reflexivity]. }
  split; [|split; [|split; [|split; [|split; [|split]]]]].
  - assert (Hnd : NoDup (parseTags R content))
      by (rewrite parseTags_firstOccurrences; apply firstOccurrences_NoDup).
    rewrite !tagCount_count_occ.
    assert (Eall : allTags (fst (addMessage R uuid now channelId content state))
                   = allTags state ++ parseTags R content).
    { cbn [addMessage fst]. rewrite allTags_setMessages, flat_map_app.
      cbn [flat_map Message.tags]. now rewrite app_nil_r, tagsField_list. }
    rewrite Eall, count_occ_app, (count_occ_NoDup _ t Hnd).
    destruct (Array_includes (parseTags R content) t); lia.
  - rewrite !tagCount_count_occ. simpl fst. now rewrite (Hkeep flipPinned).
  - rewrite !tagCount_count_occ. simpl fst. now rewrite (Hkeep flipBookmarked).
  - simpl. unfold setMessages. simpl. f_equal. rewrite map_map. apply map_ext. intros m.
    destruct (sameString (Message.id m) id) eqn:E; simpl; now rewrite E.
  - intros m Hm. simpl. now rewrite Hm.
  - unfold getPinnedMessages. simpl. f_equal. rewrite map_map.
    apply filter_map_fixed; intros m.
    + destruct (sameString (Message.id m) id) eqn:E; simpl; rewrite ?E; simpl;
        [|reflexivity].
      now destruct (Message.isPinned m) as [[|]|].
    + intros Hp. apply andb_true_iff in Hp as [Hp _].
      destruct (sameString (Message.id m) id) eqn:E; simpl; rewrite ?E; simpl;
        [|reflexivity].
      destruct m as [mid ch c ca ea tg [[|]|] bm]; simpl in *;
        try reflexivity; discriminate.
  - unfold getBookmarkedMessages. simpl. f_equal. rewrite map_map.
    apply filter_map_fixed; intros m.
    + destruct (sameString (Message.id m) id) eqn:E; simpl; rewrite ?E; simpl;
        [|reflexivity].
      now destruct (Message.isBookmarked m) as [[|]|].
    + intros Hp.
      destruct (sameString (Message.id m) id) eqn:E; simpl; rewrite ?E; simpl;
        [|reflexivity].
      destruct m as [mid ch c ca ea tg pn [[|]|]]; simpl in *;
        try reflexivity; discriminate.
Qed.

End Composition.

(* ================================================================== *)
(** * [parseTags] where [TAG_REGEX] stands *)
(* ================================================================== *)

Section StaleExpression.
Context `{Builtins}.

(** [parseTags] reads the content from where [TAG_REGEX] stands: it returns
    the tags of the text from [lastIndex] on, and nothing when [lastIndex]
    is past the end.  So right after [hasTags] on the same content it
    misses the first token occurrence. *)
Theorem parseTags_reads_from_lastIndex (R : RegExp) (content : jsstring) :
  (lastIndex R <= length content ->
   parseTags R content
   = firstOccurrences (map toLowerCase (tokensOf (skipn (lastIndex R) content))))
  /\ (length content < lastIndex R -> parseTags R content = [])
  /\ parseTags (snd (hasTags content TAG_REGEX)) content
     = firstOccurrences (map toLowerCase (tl (tokensOf content))).
Proof.
  assert (Hfrom : forall R0, lastIndex R0 <= length content ->
                    parseTags R0 content
                    = firstOccurrences
                        (map toLowerCase (tokensOf (skipn (lastIndex R0) content)))).
  { intros R0 Hle. rewrite parseTags_firstOccurrences. unfold matchAll.
    pose proof (execAll_tokensOf content {| lastIndex := lastIndex R0 |} Hle) as E.
    simpl in E. now rewrite <- E, map_map. }
  split; [apply Hfrom|]. split.
  - intros Hlt. apply parseTags_nil. unfold matchAll. rewrite execAll_unfold.
    unfold exec. simpl. apply Nat.ltb_lt in Hlt. now rewrite Hlt.
  - pose proof (execAll_tokensOf content TAG_REGEX (Nat.le_0_l _)) as Htok.
    simpl in Htok. rewrite execAll_unfold in Htok.
    unfold hasTags, test.
    destruct (exec content TAG_REGEX) as [[m|] R1] eqn:E; simpl snd.
    + destruct (exec_Some _ _ _ _ E) as (_ & _ & H3 & _).
      rewrite <- Htok. simpl tl.
      rewrite (execAll_tokensOf content R1 H3). now apply Hfrom.
    + apply exec_None in E. subst R1. rewrite <- Htok. simpl.
      change {| lastIndex := 0 |} with TAG_REGEX. now rewrite parseTags_tokensOf, <- Htok.
Qed.

End StaleExpression.

(* ================================================================== *)
(** * The comparison of versions at concrete values *)
(* ================================================================== *)

(** [undefined < 1], [null < 1], [true < 1], ['' < 1], [' 0 ' < 1],
    ['one' < 1], [[] < 1], [[null] < 1], [[[0]] < 1], [[0, 0] < 1],
    [{} < 1], [[{}] < 1], and the two that throw:
    [{ toString: 0 } < 1] and [[0, { toString: 0 }] < 1]. *)
Example lessThan_examples :
  lessThan None 1 = Normal false
  /\ lessThan (Some JNull) 1 = Normal true
  /\ lessThan (Some (JBool true)) 1 = Normal false
  /\ lessThan (Some (JString [])) 1 = Normal true
  /\ lessThan (Some (JString (utf16 " 0 "))) 1 = Normal true
  /\ lessThan (Some (JString (utf16 "one"))) 1 = Normal false
  /\ lessThan (Some (JArray [])) 1 = Normal true
  /\ lessThan (Some (JArray [JNull])) 1 = Normal true
  /\ lessThan (Some (JArray [JArray [JNumber 0]])) 1 = Normal true
  /\ lessThan (Some (JArray [JNumber 0; JNumber 0])) 1 = Normal false
  /\ lessThan (Some (JObject [])) 1 = Normal false
  /\ lessThan (Some (JArray [JObject []])) 1 = Normal false
  /\ lessThan (Some (JObject [(utf16 "toString", JNumber 0)])) 1 = Throw TypeError
  /\ lessThan (Some (JArray [JNumber 0; JObject [(utf16 "toString", JNumber 0)]])) 1
     = Throw TypeError.
Proof.
  repeat split; reflexivity.
Qed.

(** With such a version stored, [loadData] answers with a new default
    snapshot and leaves the storage as it was. *)
Example loadData_uncomparable_version :
  loadData 1 2 3 uncomparableStorage = (getDefaultData 1 2 3, uncomparableStorage).
Proof.
  reflexivity.
Qed.

(** [smallSnapshot] is a text of the collections of [smallStore]. *)
Example smallSnapshot_written :
  StorageData_written (snapshot (servers smallStore) (channels smallStore)
                                (messages smallStore))
                      smallSnapshot.
Proof.
  eexists _, _, _. split; [reflexivity|].
  repeat split; repeat constructor; eexists; (split; [reflexivity | apply Permutation_refl]).
Qed.
